(** * obsidian_ai: the line diff engine and the AI backend client

    A shallow embedding of
    - [src/modules/writing-improver.ts]: [splitLines], [buildUnifiedDiff]
      and the line classification of [renderDiffPreview];
    - [src/ai/client.ts]: [improveWithCodexCli] (argument vector),
      [improveWithResponses], [extractTextFromResponseOutput],
      [readApiError] and the promise body of [spawnCommand].

    JavaScript strings are sequences of UTF-16 code units; they are
    modelled as lists of code units ([N]).  Strict equality [===] on
    strings is equality of these lists. *)

From Stdlib Require Import ZArith NArith Lia String Ascii DecimalString.
From Stdlib Require Import QArith Qround.
From stdpp Require Import base numbers option list gmap.

Local Open Scope nat_scope.

(** ** JavaScript strings *)

Module Js.

Abbreviation jsstring := (list N).

(** An ASCII literal as a JavaScript string. *)
Definition js (s : string) : jsstring :=
  (λ a, N_of_ascii a) <$> list_ascii_of_string s.

Definition LF : N := 10%N.
Definition CR : N := 13%N.
Definition SPACE : N := 32%N.
Definition PLUS : N := 43%N.
Definition MINUS : N := 45%N.

(** [ECMAScript WhiteSpace and LineTerminator]: the code units that
    [String.prototype.trim] removes from both ends. *)
Definition isWhiteSpace (c : N) : bool :=
  (  (c =? 9) || (c =? 10) || (c =? 11) || (c =? 12) || (c =? 13)
  || (c =? 32) || (c =? 160) || (c =? 5760)
  || ((8192 <=? c) && (c <=? 8202))
  || (c =? 8232) || (c =? 8233) || (c =? 8239) || (c =? 8287)
  || (c =? 12288) || (c =? 65279))%N.

Fixpoint trimStart (s : jsstring) : jsstring :=
  match s with
  | [] => []
  | c :: rest => if isWhiteSpace c then trimStart rest else s
  end.

Definition trimEnd (s : jsstring) : jsstring :=
  reverse (trimStart (reverse s)).

(** [s.trim()] *)
Definition trim (s : jsstring) : jsstring := trimEnd (trimStart s).

(** A string in a boolean context: truthy iff non-empty. *)
Definition truthy (s : jsstring) : bool :=
  match s with [] => false | _ => true end.

(** [parts.join(sep)] *)
Fixpoint join (sep : jsstring) (parts : list jsstring) : jsstring :=
  match parts with
  | [] => []
  | [p] => p
  | p :: rest => p ++ sep ++ join sep rest
  end.

(** [s.split("\n")]: split at every line feed. *)
Fixpoint splitLF (s : jsstring) : list jsstring :=
  match s with
  | [] => [[]]
  | c :: rest =>
      if (c =? LF)%N then [] :: splitLF rest
      else match splitLF rest with
           | line :: lines => (c :: line) :: lines
           | [] => [[c]]
           end
  end.

(** *** Numbers in template literals

    A JavaScript number is a double.  An integer [z] of the model stands
    for the number that the integer denotes, the double nearest to it
    (ties to the even significand); every integer below [2 ^ 53] is one.
    [${z}] is [Number::toString] of ECMAScript in radix 10: the fewest
    significant digits that still denote the same double, of these the
    nearest to it, written out in full below [10 ^ 21] and in exponent
    form from there on. *)

(** The decimal digits of an integer. *)
Definition decimalOfZ (z : Z) : jsstring :=
  js (DecimalString.NilZero.string_of_int (Z.to_int z)).

(** The double nearest to a positive integer, before overflow. *)
Definition toDouble (x : Z) : Z :=
  if (x <? 2 ^ 53)%Z then x
  else
    let ulp := (2 ^ (Z.log2 x - 52))%Z in
    let m := (x / ulp)%Z in
    let r := (x mod ulp)%Z in
    if (2 * r <? ulp)%Z then (m * ulp)%Z
    else if (ulp <? 2 * r)%Z then ((m + 1) * ulp)%Z
    else if Z.even m then (m * ulp)%Z else ((m + 1) * ulp)%Z.

(** The multiple of [p] that denotes the double [v], if there is one: of
    two such multiples the nearer one, and of two equally near ones the
    even multiple. *)
Definition fitting (v p : Z) : option Z :=
  let below := (v / p * p)%Z in
  let above := (below + p)%Z in
  let belowFits := (0 <? below)%Z && (toDouble below =? v)%Z in
  let aboveFits := (toDouble above =? v)%Z in
  if belowFits && aboveFits then
    if (v - below <? above - v)%Z then Some below
    else if (above - v <? v - below)%Z then Some above
    else if Z.even (below / p) then Some below else Some above
  else if belowFits then Some below
  else if aboveFits then Some above
  else None.

(** The integer with the fewest significant digits that denotes the
    double [v]: the fitting multiple of the largest power of ten that
    has one, from [10 ^ j] downwards. *)
Fixpoint shortestDecimal (v : Z) (j : nat) : Z :=
  match fitting v (10 ^ Z.of_nat j), j with
  | Some c, _ => c
  | None, S j' => shortestDecimal v j'
  | None, O => v
  end.

Definition ZERO : N := 48%N.

(** Without the leading zeros. *)
Fixpoint dropZeros (digits : jsstring) : jsstring :=
  match digits with
  | [] => []
  | c :: rest => if (c =? ZERO)%N then dropZeros rest else digits
  end.

(** [String(x)] for a positive integral number: [Infinity] beyond the
    doubles; the shortest integer with all its digits while these are at
    most 21; otherwise its significant digits [d.ddd], the first one
    before the point, then [e+] and the number of digits after the first
    one. *)
Definition stringOfPositive (x : Z) : jsstring :=
  let v := toDouble x in
  if (2 ^ 1024 <=? v)%Z then js "Infinity"
  else
    let c := shortestDecimal v (length (decimalOfZ v)) in
    if (c <? 10 ^ 21)%Z then decimalOfZ c
    else
      let digits := decimalOfZ c in
      let n := length digits in
      let s := reverse (dropZeros (reverse digits)) in
      let e := js "e+" ++ decimalOfZ (Z.of_nat (n - 1)) in
      match s with
      | [d] => d :: e
      | d :: more => d :: js "." ++ more ++ e
      | [] => e
      end.

(** [String(z)] for an integral number. *)
Definition stringOfZ (z : Z) : jsstring :=
  match z with
  | Z0 => js "0"
  | Zpos _ => stringOfPositive z
  | Zneg p => js "-" ++ stringOfPositive (Zpos p)
  end.

(** A template-literal hole [${xs[k]}] filled from an array read, which
    is [undefined] out of range. *)
Definition interpolate (o : option jsstring) : jsstring :=
  match o with
  | Some s => s
  | None => js "undefined"
  end.

End Js.

Import Js.

(** ** The diff engine ([src/modules/writing-improver.ts]) *)

Module Diff.

Definition startsWithLF (s : jsstring) : bool :=
  match s with
  | c :: _ => (c =? LF)%N
  | [] => false
  end.

(** [text.split(/\r?\n/)]: a line ends at a line feed, and a carriage
    return directly before that line feed belongs to the terminator. *)
Fixpoint splitLines (text : jsstring) : list jsstring :=
  match text with
  | [] => [[]]
  | c :: rest =>
      if (c =? LF)%N then [] :: splitLines rest
      else if (c =? CR)%N && startsWithLF rest then splitLines rest
      else match splitLines rest with
           | line :: lines => (c :: line) :: lines
           | [] => [[c]]
           end
  end.

Definition MAX_CELLS : Z := 250000.

Definition TOO_LARGE : jsstring :=
  js "Diff is too large to render safely. Apply to inspect full changes in note view.".

(** A store into a [Uint32Array] element keeps the value modulo 2^32. *)
Definition wrap32 (z : Z) : Z := (z mod 2 ^ 32)%Z.

(** The three typed arrays of [buildUnifiedDiff]. *)
Record Tables := mkTables {
  directions : list Z;   (* Uint8Array((n + 1) * cols) *)
  prev : list Z;         (* Uint32Array(cols) *)
  curr : list Z          (* Uint32Array(cols) *)
}.

Section Engine.

Variables originalLines updatedLines : list jsstring.

Let n := length originalLines.
Let m := length updatedLines.
Let cols := m + 1.

Definition initTables : Tables :=
  {| directions := replicate ((n + 1) * cols) 0%Z;
     prev := replicate cols 0%Z;
     curr := replicate cols 0%Z |}.

(** Body of the inner loop, lines 50-60. *)
Definition cell (i j : nat) (t : Tables) : Tables :=
  let idx := i * cols + j in
  if bool_decide (originalLines !! (i - 1) = updatedLines !! (j - 1)) then
    {| directions := <[idx := 3%Z]> (directions t);
       prev := prev t;
       curr := <[j := wrap32 (prev t !!! (j - 1)%nat + 1)]> (curr t) |}
  else if Z.geb (prev t !!! j) (curr t !!! (j - 1)) then
    {| directions := <[idx := 1%Z]> (directions t);
       prev := prev t;
       curr := <[j := prev t !!! j]> (curr t) |}
  else
    {| directions := <[idx := 2%Z]> (directions t);
       prev := prev t;
       curr := <[j := curr t !!! (j - 1)]> (curr t) |}.

(** One pass of the outer loop, lines 49-64: the inner loop for
    [j = 1 .. m], then [prev.set(curr); curr.fill(0)]. *)
Definition row (t : Tables) (i : nat) : Tables :=
  let t' := foldl (λ t j, cell i j t) t (seq 1 m) in
  {| directions := directions t';
     prev := curr t';
     curr := replicate (length (curr t')) 0%Z |}.

(** The outer loop, [i = 1 .. n]. *)
Definition fillTables : Tables := foldl row initTables (seq 1 n).

(** The backtracking [while] loop, lines 71-91.  [fuel] bounds the number
    of iterations; [diffLines] is the array the loop pushes onto. *)
Fixpoint backtrack (dirs : list Z) (fuel i j : nat) (diffLines : list jsstring)
  : list jsstring :=
  match fuel with
  | 0 => diffLines
  | S fuel =>
      if (0 <? i) || (0 <? j) then
        let idx := i * cols + j in
        if (0 <? i) && (0 <? j) && Z.eqb (dirs !!! idx) 3 then
          backtrack dirs fuel (i - 1) (j - 1)
            (diffLines ++ [SPACE :: interpolate (updatedLines !! (j - 1))])
        else if (0 <? j) && ((i =? 0) || Z.eqb (dirs !!! idx) 2) then
          backtrack dirs fuel i (j - 1)
            (diffLines ++ [PLUS :: interpolate (updatedLines !! (j - 1))])
        else if 0 <? i then
          backtrack dirs fuel (i - 1) j
            (diffLines ++ [MINUS :: interpolate (originalLines !! (i - 1))])
        else backtrack dirs fuel i j diffLines
      else diffLines
  end.

(** Lines 36-93, after the two inputs have been split. *)
Definition diffOfLines : jsstring :=
  if (MAX_CELLS <? Z.of_nat n * Z.of_nat m)%Z then TOO_LARGE
  else
    let t := fillTables in
    let diffLines := backtrack (directions t) (n + m) n m [] in
    join [LF] (reverse diffLines).

End Engine.

Definition buildUnifiedDiff (originalText updatedText : jsstring) : jsstring :=
  diffOfLines (splitLines originalText) (splitLines updatedText).

(** The product [n * m] of line 39 for two texts. *)
Definition cellCount (originalText updatedText : jsstring) : Z :=
  (Z.of_nat (length (splitLines originalText))
   * Z.of_nat (length (splitLines updatedText)))%Z.

(** *** Reading a rendered script

    [renderDiffPreview] splits the rendered text at line feeds and
    classifies every line by its first code unit: [+] is an insertion,
    [-] a deletion, anything else an unchanged line.  The line an
    operation carries is the text after that tag. *)

Inductive EditOp :=
  | Equal (line : jsstring)
  | Insert (line : jsstring)
  | Delete (line : jsstring).

Definition readOp (rendered : jsstring) : EditOp :=
  match rendered with
  | [] => Equal []
  | c :: line =>
      if (c =? PLUS)%N then Insert line
      else if (c =? MINUS)%N then Delete line
      else Equal line
  end.

Definition readScript (diffText : jsstring) : list EditOp :=
  readOp <$> splitLF diffText.

(** Lines of the original document: Equal and Delete operations. *)
Definition originalOf (ops : list EditOp) : list jsstring :=
  omap (λ op, match op with
              | Equal l | Delete l => Some l
              | Insert _ => None
              end) ops.

(** Lines of the updated document: Equal and Insert operations. *)
Definition updatedOf (ops : list EditOp) : list jsstring :=
  omap (λ op, match op with
              | Equal l | Insert l => Some l
              | Delete _ => None
              end) ops.

Definition equalOf (ops : list EditOp) : list jsstring :=
  omap (λ op, match op with Equal l => Some l | _ => None end) ops.

Definition insertOf (ops : list EditOp) : list jsstring :=
  omap (λ op, match op with Insert l => Some l | _ => None end) ops.

Definition deleteOf (ops : list EditOp) : list jsstring :=
  omap (λ op, match op with Delete l => Some l | _ => None end) ops.

(** The text [buildUnifiedDiff] pushes for an operation. *)
Definition render (op : EditOp) : jsstring :=
  match op with
  | Equal l => SPACE :: l
  | Insert l => PLUS :: l
  | Delete l => MINUS :: l
  end.

(** *** Reference values of the two tables

    [lcsTable A B i j] is the score the rolling rows hold for cell
    [(i, j)], and [dirOf A B i j] the direction written for it, by the
    recurrence of lines 51-60. *)
Fixpoint lcsTable (A B : list jsstring) (i j : nat) : nat :=
  match i with
  | 0 => 0
  | S i' =>
      (fix across (j : nat) : nat :=
         match j with
         | 0 => 0
         | S j' =>
             if bool_decide (A !! i' = B !! j') then S (lcsTable A B i' j')
             else if across j' <=? lcsTable A B i' j
                  then lcsTable A B i' j
                  else across j'
         end) j
  end.

Arguments lcsTable : simpl never.

Definition dirOf (A B : list jsstring) (i j : nat) : Z :=
  if bool_decide (A !! (i - 1) = B !! (j - 1)) then 3%Z
  else if lcsTable A B i (j - 1) <=? lcsTable A B (i - 1) j then 1%Z
  else 2%Z.

(** Row [i] of the score table is in [r] up to column [k]. *)
Definition rowHolds (A B : list jsstring) (i k : nat) (r : list Z) : Prop :=
  length r = length B + 1 ∧
  ∀ j, j ≤ k → r !!! j = Z.of_nat (lcsTable A B i j).

(** The direction grid [d] is written for the rows before [i] and for
    row [i] up to column [k]. *)
Definition dirsFilled (A B : list jsstring) (i k : nat) (d : list Z) : Prop :=
  length d = (length A + 1) * (length B + 1) ∧
  ∀ i' j', 1 ≤ i' → 1 ≤ j' ≤ length B → i' < i ∨ (i' = i ∧ j' ≤ k) →
    d !!! (i' * (length B + 1) + j') = dirOf A B i' j'.

(** The loop invariant of lines 48-65 inside row [i], after column [k]. *)
Definition tablesAt (A B : list jsstring) (i k : nat) (t : Tables) : Prop :=
  rowHolds A B (i - 1) (length B) (prev t) ∧
  rowHolds A B i k (curr t) ∧
  dirsFilled A B i k (directions t).

(** [l] is a longest common subsequence of [xs] and [ys]. *)
Definition longestCommonSubsequence {X} (l xs ys : list X) : Prop :=
  l `sublist_of` xs ∧ l `sublist_of` ys ∧
  ∀ l', l' `sublist_of` xs → l' `sublist_of` ys → length l' ≤ length l.

(** Sample texts: "a\nb", "b\na", and 500 line feeds (501 lines). *)
Definition textAB : jsstring := js "a" ++ [LF] ++ js "b".
Definition textBA : jsstring := js "b" ++ [LF] ++ js "a".
Definition manyLines : jsstring := replicate 500 LF.

End Diff.

Import Diff.

(** ** The backend client ([src/ai/client.ts]) *)

Module Client.

(** *** Values received from the network

    What [response.json()] can produce, with [undefined] added for absent
    properties.  The client never inspects a number. *)
#[local] Unset Elimination Schemes.
Inductive JsValue :=
  | JUndefined
  | JNull
  | JBool (b : bool)
  | JNumber (z : Z)
  | JString (s : jsstring)
  | JArray (items : list JsValue)
  | JObject (fields : list (jsstring * JsValue)).
#[local] Set Elimination Schemes.

Definition lookupField (name : jsstring) (fields : list (jsstring * JsValue))
  : JsValue :=
  match list_find (λ kv, kv.1 = name) fields with
  | Some (_, (_, v)) => v
  | None => JUndefined
  end.

(** [v?.name] for the property names the client reads ([output_text],
    [output], [content], [text], [error], [message]); only an object can
    have one of them. *)
Definition optProp (v : JsValue) (name : string) : JsValue :=
  match v with
  | JObject fields => lookupField (js name) fields
  | _ => JUndefined
  end.

(** [v.name]: as [v?.name], but a [TypeError] on [null] and
    [undefined]. *)
Definition prop (v : JsValue) (name : string) : option JsValue :=
  match v with
  | JUndefined | JNull => None
  | _ => Some (optProp v name)
  end.

Inductive JsError :=
  | Error (message : jsstring)
  | TypeError.

Inductive Result :=
  | Returned (text : jsstring)
  | Threw (e : JsError).

Definition BLANK_LINE : jsstring := [LF; LF].

(** [extractTextFromResponseOutput], lines 124-146; [chunks.push(x)]
    appends at the end. *)
Definition pushBlock (chunks : list jsstring) (block : JsValue) : list jsstring :=
  match optProp block "text" with
  | JString text => if truthy (trim text) then chunks ++ [trim text] else chunks
  | _ => chunks
  end.

Definition pushItem (chunks : list jsstring) (item : JsValue) : list jsstring :=
  match optProp item "content" with
  | JArray content => foldl pushBlock chunks content
  | _ => chunks
  end.

Definition extractTextFromResponseOutput (output : JsValue) : jsstring :=
  match output with
  | JArray items => trim (join BLANK_LINE (foldl pushItem [] items))
  | _ => []
  end.

(** [a ?? b] *)
Definition nullish (a b : JsValue) : JsValue :=
  match a with
  | JUndefined | JNull => b
  | _ => a
  end.

(** [readApiError], lines 148-158. *)
Definition readApiError (json : JsValue) (status : Z) : jsstring :=
  let message :=
    nullish (optProp (optProp json "error") "message") (optProp json "message") in
  let fallback :=
    js "API request failed with status " ++ stringOfZ status ++ js "." in
  match message with
  | JString s => if truthy (trim s) then trim s else fallback
  | _ => fallback
  end.

Record Response := mkResponse { status : Z; json : JsValue }.

(** [body.output_text], or the empty string when that is nullish, as the
    receiver of [.trim()], line 82:
    [None] when the read or the call raises a [TypeError] ([body] is
    [null], or the field is neither absent nor a string). *)
Definition topLevelText (body : JsValue) : option jsstring :=
  match prop body "output_text" with
  | None => None
  | Some output_text =>
      match nullish output_text (JString []) with
      | JString s => Some s
      | _ => None
      end
  end.

(** [improveWithResponses], lines 73-91, from the response that
    [postJson] delivered. *)
Definition improveWithResponses (response : Response) : Result :=
  if (400 <=? status response)%Z then
    Threw (Error (readApiError (json response) (status response)))
  else
    let body := json response in
    match topLevelText body with
    | None => Threw TypeError
    | Some s =>
        let textFromTopLevel := trim s in
        if truthy textFromTopLevel then Returned textFromTopLevel
        else
          let textFromOutput :=
            extractTextFromResponseOutput (optProp body "output") in
          if truthy textFromOutput then Returned textFromOutput
          else Threw (Error (js "AI API returned no text."))
    end.


Definition AI_NO_TEXT : Result := Threw (Error (js "AI API returned no text.")).

(** *** The output list, block by block *)

(** The blocks of an output item, and the text of a block. *)
Definition blocksOf (item : JsValue) : list JsValue :=
  match optProp item "content" with
  | JArray content => content
  | _ => []
  end.

Definition textOf (block : JsValue) : option jsstring :=
  match optProp block "text" with
  | JString text => Some text
  | _ => None
  end.

(** Every nested text block of every output item, in list order. *)
Definition textBlocks (items : list JsValue) : list jsstring :=
  omap textOf (items ≫= blocksOf).

(** The text blocks that are not blank, each trimmed. *)
Definition trimmedBlocks (items : list JsValue) : list jsstring :=
  filter (λ chunk, chunk ≠ []) (trim <$> textBlocks items).

Definition whitespaceOnly (s : jsstring) : bool := forallb isWhiteSpace s.

(** No white space at either end of a non-empty string. *)
Definition tight (s : jsstring) : Prop :=
  (∃ c, head s = Some c ∧ isWhiteSpace c = false)
  ∧ (∃ c, last s = Some c ∧ isWhiteSpace c = false).



(** The [output] list of a body. *)
Definition outputItems (body : JsValue) : list JsValue :=
  match optProp body "output" with
  | JArray items => items
  | _ => []
  end.

(** The normalization as the specification words it: the trimmed
    top-level text if that is non-empty, otherwise every nested text
    block joined with a blank line in between. *)
Definition normalizedAsSpecified (body : JsValue) : jsstring :=
  let topLevel := default [] (topLevelText body) in
  if truthy (trim topLevel) then trim topLevel
  else join BLANK_LINE (textBlocks (outputItems body)).

(** A "responses" body [{output_text, output: [{content: [{text}, ..]}, ..]}]
    from the nested texts. *)
Definition responsesBody (topLevel : jsstring) (nested : list (list jsstring))
  : JsValue :=
  JObject
    [ (js "output_text", JString topLevel);
      (js "output",
       JArray ((λ texts,
                  JObject [(js "content",
                            JArray ((λ t, JObject [(js "text", JString t)])
                                      <$> texts))])
                 <$> nested)) ].

(** *** The Codex CLI call *)

Inductive CodexThreadMode := ThreadNew | ThreadLast | ThreadSpecific.

(** The object [improveCurrentWriting] passes to [improveWriting].  The
    interface [ImproveWritingInput] of the client declares [text] and
    [systemPrompt]. *)
Record ImproveWritingInput := mkInput {
  text : jsstring;
  systemPrompt : jsstring;
  codexThreadMode : option CodexThreadMode;
  codexThreadId : option jsstring
}.

Record Settings := mkSettings {
  codexCommand : jsstring;
  model : jsstring;
  requestTimeoutMs : Z
}.

(** Lines 39-46. *)
Definition codexPrompt (input : ImproveWritingInput) : jsstring :=
  join [LF]
    [ systemPrompt input;
      [];
      js "Return only the improved markdown text with no preface.";
      [];
      js "Text to improve:";
      text input ].

(** Line 48: the argument vector handed to [spawnCommand]. *)
Definition codexArgs (settings : Settings) (input : ImproveWritingInput)
  : list jsstring :=
  [ js "exec"; js "--skip-git-repo-check"; js "-m"; model settings;
    codexPrompt input ].

(** *** The process invoker, [spawnCommand]

    The promise body registers four callbacks; the run of a child is the
    sequence in which the host calls them.  The command and its arguments
    decide what the child does, that is, which events arrive. *)

Inductive Settlement :=
  | Resolved (value : jsstring)
  | Rejected (message : jsstring).

Inductive ChildEvent :=
  | StdoutData (chunk : jsstring)
  | StderrData (chunk : jsstring)
  | Close (code : option Z)
  | TimeoutFired.

Record Child := mkChild {
  stdout : jsstring;
  stderr : jsstring;
  settled : bool;
  (* calls of [resolve] and [reject], oldest first *)
  settlements : list Settlement;
  (* signals sent with [child.kill] *)
  killed : list jsstring;
  (* [window.clearTimeout(timeoutId)] was called *)
  timerCleared : bool
}.

Definition spawned : Child :=
  {| stdout := []; stderr := []; settled := false; settlements := [];
     killed := []; timerCleared := false |}.

(** [String(code)] for [code : number | null]. *)
Definition stringOfCode (code : option Z) : jsstring :=
  match code with
  | Some z => stringOfZ z
  | None => js "null"
  end.

(** The timer callback, lines 224-231. *)
Definition onTimeout (timeoutMs : Z) (c : Child) : Child :=
  if settled c then c
  else
    {| stdout := stdout c; stderr := stderr c;
       settled := true;
       settlements := settlements c ++
         [Rejected (js "Codex CLI timed out after " ++ stringOfZ timeoutMs
                    ++ js "ms.")];
       killed := killed c ++ [js "SIGTERM"];
       timerCleared := timerCleared c |}.

(** The [data] callbacks, lines 233-238. *)
Definition onStdout (chunk : jsstring) (c : Child) : Child :=
  {| stdout := stdout c ++ chunk; stderr := stderr c;
     settled := settled c; settlements := settlements c;
     killed := killed c; timerCleared := timerCleared c |}.

Definition onStderr (chunk : jsstring) (c : Child) : Child :=
  {| stdout := stdout c; stderr := stderr c ++ chunk;
     settled := settled c; settlements := settlements c;
     killed := killed c; timerCleared := timerCleared c |}.

(** The [close] callback, lines 240-254. *)
Definition onClose (code : option Z) (c : Child) : Child :=
  if settled c then c
  else
    let outcome :=
      if bool_decide (code = Some 0%Z) then Resolved (trim (stdout c))
      else
        let err :=
          if truthy (trim (stderr c)) then trim (stderr c)
          else js "Codex CLI exited with code " ++ stringOfCode code ++ js "."
        in
        Rejected err
    in
    {| stdout := stdout c; stderr := stderr c;
       settled := true;
       settlements := settlements c ++ [outcome];
       killed := killed c;
       timerCleared := true |}.

Definition handle (timeoutMs : Z) (c : Child) (ev : ChildEvent) : Child :=
  match ev with
  | StdoutData chunk => onStdout chunk c
  | StderrData chunk => onStderr chunk c
  | Close code => onClose code c
  | TimeoutFired => onTimeout timeoutMs c
  end.

Definition runChild (timeoutMs : Z) (events : list ChildEvent) : Child :=
  foldl (handle timeoutMs) spawned events.

(** A promise takes the first call of [resolve] or [reject]; with none it
    is pending. *)
Definition promiseOf (c : Child) : option Settlement := head (settlements c).

Record Runtime := mkRuntime {
  hasRequire : bool;       (* [window.require] is present *)
  hasSpawn : bool          (* [child_process.spawn] is present *)
}.

(** [spawnCommand], lines 191-256: what the returned promise holds after
    the host delivered [events]. *)
Definition spawnCommand (rt : Runtime) (timeoutMs : Z)
    (events : list ChildEvent) : option Settlement :=
  if negb (hasRequire rt) then
    Some (Rejected (js "Codex CLI is available only in Obsidian desktop."))
  else if negb (hasSpawn rt) then
    Some (Rejected (js "Unable to access child_process.spawn."))
  else promiseOf (runChild timeoutMs events).

(** Events that do not settle the promise. *)
Definition isData (ev : ChildEvent) : bool :=
  match ev with
  | StdoutData _ | StderrData _ => true
  | Close _ | TimeoutFired => false
  end.

(** What the two [data] callbacks have accumulated. *)
Definition stdoutOf (events : list ChildEvent) : jsstring :=
  mjoin (omap (λ ev, match ev with StdoutData c => Some c | _ => None end) events).

Definition stderrOf (events : list ChildEvent) : jsstring :=
  mjoin (omap (λ ev, match ev with StderrData c => Some c | _ => None end) events).

Definition exitMessage (code : option Z) : jsstring :=
  js "Codex CLI exited with code " ++ stringOfCode code ++ js ".".

(** The exit mapping as the specification words it: the standard-error
    text decides between the two messages before it is trimmed. *)
Definition exitAsSpecified (code : option Z) (out err : jsstring) : Settlement :=
  if bool_decide (code = Some 0%Z) then Resolved (trim out)
  else if truthy err then Rejected (trim err)
  else Rejected (exitMessage code).

(** A host that has [window.require] and [child_process.spawn]. *)
Definition desktop : Runtime := {| hasRequire := true; hasSpawn := true |}.

End Client.

Import Client.

(** ** More of the writing module ([src/modules/writing-improver.ts]) *)

Module Writing.

(** [s.startsWith(p)] *)
Definition startsWith (p s : jsstring) : bool :=
  bool_decide (take (length p) s = p).

Definition FENCE : jsstring := js "---".

(** [\r?\n] at the head of [s]: the number of code units it takes. *)
Definition lineBreakAt (s : jsstring) : option nat :=
  match s with
  | [] => None
  | c :: rest =>
      if (c =? CR)%N && startsWithLF rest then Some 2
      else if (c =? LF)%N then Some 1
      else None
  end.

(** [(?:\r?\n|$)] at the head of [s]; without the [m] flag [$] is the
    end of the input. *)
Definition fenceEndAt (s : jsstring) : option nat :=
  match lineBreakAt s with
  | Some k => Some k
  | None => match s with [] => Some 0 | _ => None end
  end.

(** [\r?\n---(?:\r?\n|$)] at the head of [s]. *)
Definition closingFenceAt (s : jsstring) : option nat :=
  match lineBreakAt s with
  | None => None
  | Some k =>
      if startsWith FENCE (drop k s) then
        match fenceEndAt (drop (k + 3) s) with
        | Some e => Some (k + 3 + e)
        | None => None
        end
      else None
  end.

(** [[\s\S]*?] followed by the closing fence: the lazy star takes as few
    code units as it can, so the first position where the closing fence
    matches wins. *)
Fixpoint lazyClose (s : jsstring) : option nat :=
  match closingFenceAt s with
  | Some k => Some k
  | None =>
      match s with
      | [] => None
      | _ :: rest => S <$> lazyClose rest
      end
  end.

(** Length of the match of [/^---\r?\n[\s\S]*?\r?\n---(?:\r?\n|$)/]. *)
Definition frontMatterLength (text : jsstring) : option nat :=
  if startsWith FENCE text then
    match lineBreakAt (drop 3 text) with
    | None => None
    | Some k =>
        match lazyClose (drop (3 + k) text) with
        | Some c => Some (3 + k + c)
        | None => None
        end
    end
  else None.

Record FrontMatterSplit := mkSplit { frontMatter : jsstring; body : jsstring }.

(** [splitFrontMatter], lines 18-27.  The pattern is anchored, so a match
    is at index 0. *)
Definition splitFrontMatter (text : jsstring) : FrontMatterSplit :=
  match frontMatterLength text with
  | None => {| frontMatter := []; body := text |}
  | Some len => {| frontMatter := take len text; body := drop len text |}
  end.

(** [renderDiffPreview], lines 96-114: the [div] elements the container
    holds afterwards, with their colour and text. *)
Inductive Color := Green | Red | Muted.

Record PreviewLine := mkLine { color : Color; shown : jsstring }.

Definition lineColor (line : jsstring) : Color :=
  if startsWith [PLUS] line then Green
  else if startsWith [MINUS] line then Red
  else Muted.

Definition renderDiffPreview (diffText : jsstring) : list PreviewLine :=
  (λ line, {| color := lineColor line; shown := line |}) <$> splitLF diffText.

(** The colour that stands for an operation. *)
Definition opColor (op : EditOp) : Color :=
  match op with
  | Equal _ => Muted
  | Insert _ => Green
  | Delete _ => Red
  end.

(** A line break as the patterns accept it. *)
Definition isLineBreak (s : jsstring) : Prop := s = [LF] ∨ s = [CR; LF].

(** *** Texts and their line feeds *)

Definition countLF (text : jsstring) : nat :=
  length (filter (λ c, c = LF) text).

(** No carriage return stands directly before a line feed. *)
Fixpoint crlfFree (text : jsstring) : bool :=
  match text with
  | [] => true
  | c :: rest => negb ((c =? CR)%N && startsWithLF rest) && crlfFree rest
  end.

(** The text with every line feed turned into carriage return, line
    feed. *)
Fixpoint toCRLF (text : jsstring) : jsstring :=
  match text with
  | [] => []
  | c :: rest =>
      if (c =? LF)%N then CR :: LF :: toCRLF rest else c :: toCRLF rest
  end.

End Writing.

(** ** More of the backend client ([src/ai/client.ts]) *)

Module Backend.

Inductive AiBackend := CodexCli | OpenAiApi.
Inductive ApiStyle := Responses | ChatCompletions.

(** [ObsidianAiPluginSettings] of [src/settings.ts].  The field
    [temperature] only travels in the request body and is left out. *)
Record PluginSettings := mkPluginSettings {
  aiBackend : AiBackend;
  apiKey : jsstring;
  apiBaseUrl : jsstring;
  apiStyle : ApiStyle;
  codexCommand : jsstring;
  model : jsstring;
  requestTimeoutMs : Z;
  writingSystemPrompt : jsstring
}.

Definition DEFAULT_SETTINGS : PluginSettings :=
  {| aiBackend := CodexCli;
     apiKey := [];
     apiBaseUrl := js "https://api.openai.com/v1";
     apiStyle := Responses;
     codexCommand := js "codex";
     model := js "gpt-5-codex";
     requestTimeoutMs := 60000;
     writingSystemPrompt :=
       js "You are an expert writing editor. Improve clarity, flow, grammar, and structure while preserving the original meaning and markdown format." |}.

(** The part of the settings that [improveWithCodexCli] and
    [spawnCommand] read. *)
Definition cliSettings (settings : PluginSettings) : Settings :=
  {| Client.codexCommand := codexCommand settings;
     Client.model := model settings;
     Client.requestTimeoutMs := requestTimeoutMs settings |}.

(** [v?.[0]]: the first element of an array, the property "0" of an
    object, the first code unit of a string. *)
Definition index0 (v : JsValue) : JsValue :=
  match v with
  | JArray (first :: _) => first
  | JObject fields => lookupField (js "0") fields
  | JString (c :: _) => JString [c]
  | _ => JUndefined
  end.

(** [improveWithChatCompletions], lines 104-121, from the response that
    [postJson] delivered. *)
Definition improveWithChatCompletions (response : Response) : Result :=
  if (400 <=? status response)%Z then
    Threw (Error (readApiError (json response) (status response)))
  else
    match prop (json response) "choices" with
    | None => Threw TypeError
    | Some choices =>
        let first := index0 choices in
        let text :=
          nullish
            (nullish (optProp (optProp first "message") "content")
                     (optProp first "text"))
            (JString []) in
        match text with
        | JString s => if truthy (trim s) then Returned (trim s) else AI_NO_TEXT
        | _ => Threw TypeError
        end
    end.

Definition SLASH : N := 47%N.

(** [s.replace(/\/$/, "")]: without a trailing slash, if there is one. *)
Definition stripTrailingSlash (s : jsstring) : jsstring :=
  match reverse s with
  | c :: r => if (c =? SLASH)%N then reverse r else s
  | [] => s
  end.

(** Line 166. *)
Definition requestUrl (settings : PluginSettings) (path : jsstring) : jsstring :=
  stripTrailingSlash (apiBaseUrl settings) ++ path.

(** The JSON bodies of lines 58-71 and 95-102, without [temperature]. *)
Inductive Payload :=
  | ResponsesPayload (model systemPrompt text : jsstring)
  | ChatPayload (model systemPrompt text : jsstring).

(** What [fetch] does with a request: it responds, with a body that
    parses as JSON or not; it is aborted by the timer of line 165; or it
    fails otherwise. *)
Inductive Fetched :=
  | Responded (status : Z) (parsed : option JsValue)
  | Aborted
  | FetchFailed (e : JsError).

(** The host: whether child processes can be spawned, what a child does
    for given arguments, and what [fetch] does for a request. *)
Record Host := mkHost {
  runtime : Runtime;
  child : list jsstring → list ChildEvent;
  fetch : jsstring → Payload → Fetched
}.

(** [postJson], lines 160-189; a body that does not parse counts as the
    empty object. *)
Definition postJson (settings : PluginSettings) (host : Host)
    (path : jsstring) (payload : Payload) : Response + JsError :=
  match fetch host (requestUrl settings path) payload with
  | Responded status parsed =>
      inl {| status := status; json := default (JObject []) parsed |}
  | Aborted =>
      inr (Error (js "Request timed out after "
                  ++ stringOfZ (requestTimeoutMs settings) ++ js "ms."))
  | FetchFailed e => inr e
  end.

(** An awaited promise: still pending, or completed by a return or a
    throw. *)
Inductive Completion :=
  | Pending
  | Completed (r : Result).

(** The end of a call that awaits [spawnCommand] and insists on
    non-blank output, lines 30-35 and 49-54. *)
Definition awaitOutput (settled : option Settlement) (noText : jsstring)
  : Completion :=
  match settled with
  | None => Pending
  | Some (Rejected message) => Completed (Threw (Error message))
  | Some (Resolved result) =>
      let output := trim result in
      if truthy output then Completed (Returned output)
      else Completed (Threw (Error noText))
  end.

(** [testCodexCliConnection], lines 29-36. *)
Definition testCodexCliConnection (settings : PluginSettings) (host : Host)
  : Completion :=
  awaitOutput
    (spawnCommand (runtime host) (requestTimeoutMs settings)
       (child host [js "--version"]))
    (js "Codex CLI did not return a version string.").

(** [improveWithCodexCli], lines 38-55. *)
Definition improveWithCodexCli (settings : PluginSettings) (host : Host)
    (input : ImproveWritingInput) : Completion :=
  awaitOutput
    (spawnCommand (runtime host) (requestTimeoutMs settings)
       (child host (codexArgs (cliSettings settings) input)))
    (js "Codex CLI returned no text.").

(** [improveWriting], lines 17-27. *)
Definition improveWriting (settings : PluginSettings) (host : Host)
    (input : ImproveWritingInput) : Completion :=
  match aiBackend settings with
  | CodexCli => improveWithCodexCli settings host input
  | OpenAiApi =>
      match apiStyle settings with
      | ChatCompletions =>
          match postJson settings host (js "/chat/completions")
                  (ChatPayload (model settings) (systemPrompt input) (text input))
          with
          | inl response => Completed (improveWithChatCompletions response)
          | inr e => Completed (Threw e)
          end
      | Responses =>
          match postJson settings host (js "/responses")
                  (ResponsesPayload (model settings) (systemPrompt input)
                     (text input))
          with
          | inl response => Completed (improveWithResponses response)
          | inr e => Completed (Threw e)
          end
      end
  end.

(** The timeout rejection of line 230. *)
Definition timeoutRejection (timeoutMs : Z) : Settlement :=
  Rejected (js "Codex CLI timed out after " ++ stringOfZ timeoutMs ++ js "ms.").

End Backend.

(** ** The plugin ([src/plugin.ts]) *)

Module Plugin.

Import Backend.

(** [hasAiConfigured] *)
Definition hasAiConfigured (settings : PluginSettings) : bool :=
  match aiBackend settings with
  | CodexCli => true
  | OpenAiApi => truthy (trim (apiKey settings))
  end.

(** What [loadData] returns: for each setting the stored value, if the
    stored object has that key. *)
Record SavedData := mkSaved {
  savedAiBackend : option AiBackend;
  savedApiKey : option jsstring;
  savedApiBaseUrl : option jsstring;
  savedApiStyle : option ApiStyle;
  savedCodexCommand : option jsstring;
  savedModel : option jsstring;
  savedRequestTimeoutMs : option Z;
  savedWritingSystemPrompt : option jsstring
}.

(** [Object.assign({}, DEFAULT_SETTINGS, saved)] *)
Definition assignDefaults (saved : SavedData) : PluginSettings :=
  {| aiBackend := default (aiBackend DEFAULT_SETTINGS) (savedAiBackend saved);
     apiKey := default (apiKey DEFAULT_SETTINGS) (savedApiKey saved);
     apiBaseUrl := default (apiBaseUrl DEFAULT_SETTINGS) (savedApiBaseUrl saved);
     apiStyle := default (apiStyle DEFAULT_SETTINGS) (savedApiStyle saved);
     codexCommand := default (codexCommand DEFAULT_SETTINGS) (savedCodexCommand saved);
     model := default (model DEFAULT_SETTINGS) (savedModel saved);
     requestTimeoutMs :=
       default (requestTimeoutMs DEFAULT_SETTINGS) (savedRequestTimeoutMs saved);
     writingSystemPrompt :=
       default (writingSystemPrompt DEFAULT_SETTINGS) (savedWritingSystemPrompt saved) |}.

Definition withModel (settings : PluginSettings) (m : jsstring) : PluginSettings :=
  {| aiBackend := aiBackend settings; apiKey := apiKey settings;
     apiBaseUrl := apiBaseUrl settings; apiStyle := apiStyle settings;
     codexCommand := codexCommand settings; model := m;
     requestTimeoutMs := requestTimeoutMs settings;
     writingSystemPrompt := writingSystemPrompt settings |}.

(** [loadSettings]: the settings, and whether [saveSettings] was
    called. *)
Definition loadSettings (saved : SavedData) : PluginSettings * bool :=
  let settings := assignDefaults saved in
  match aiBackend settings with
  | CodexCli =>
      if bool_decide (model settings = js "gpt-5-mini")
      then (withModel settings (js "gpt-5-codex"), true)
      else (settings, false)
  | OpenAiApi => (settings, false)
  end.

(** What [saveData(this.settings)] stores. *)
Definition savedOf (settings : PluginSettings) : SavedData :=
  {| savedAiBackend := Some (aiBackend settings);
     savedApiKey := Some (apiKey settings);
     savedApiBaseUrl := Some (apiBaseUrl settings);
     savedApiStyle := Some (apiStyle settings);
     savedCodexCommand := Some (codexCommand settings);
     savedModel := Some (model settings);
     savedRequestTimeoutMs := Some (requestTimeoutMs settings);
     savedWritingSystemPrompt := Some (writingSystemPrompt settings) |}.

(** [value.trim() || fallback], the pattern of the text settings. *)
Definition trimmedOr (value fallback : jsstring) : jsstring :=
  if truthy (trim value) then trim value else fallback.

(** The [onChange] handlers of the settings tab for the text fields. *)
Definition changeCodexCommand (value : jsstring) (settings : PluginSettings)
  : PluginSettings :=
  {| aiBackend := aiBackend settings; apiKey := apiKey settings;
     apiBaseUrl := apiBaseUrl settings; apiStyle := apiStyle settings;
     codexCommand := trimmedOr value (codexCommand DEFAULT_SETTINGS);
     model := model settings;
     requestTimeoutMs := requestTimeoutMs settings;
     writingSystemPrompt := writingSystemPrompt settings |}.

Definition changeApiKey (value : jsstring) (settings : PluginSettings)
  : PluginSettings :=
  {| aiBackend := aiBackend settings; apiKey := trim value;
     apiBaseUrl := apiBaseUrl settings; apiStyle := apiStyle settings;
     codexCommand := codexCommand settings; model := model settings;
     requestTimeoutMs := requestTimeoutMs settings;
     writingSystemPrompt := writingSystemPrompt settings |}.

Definition changeApiBaseUrl (value : jsstring) (settings : PluginSettings)
  : PluginSettings :=
  {| aiBackend := aiBackend settings; apiKey := apiKey settings;
     apiBaseUrl := trimmedOr value (apiBaseUrl DEFAULT_SETTINGS);
     apiStyle := apiStyle settings;
     codexCommand := codexCommand settings; model := model settings;
     requestTimeoutMs := requestTimeoutMs settings;
     writingSystemPrompt := writingSystemPrompt settings |}.

Definition changeModel (value : jsstring) (settings : PluginSettings)
  : PluginSettings :=
  withModel settings (trimmedOr value (model DEFAULT_SETTINGS)).

Definition changeWritingSystemPrompt (value : jsstring) (settings : PluginSettings)
  : PluginSettings :=
  {| aiBackend := aiBackend settings; apiKey := apiKey settings;
     apiBaseUrl := apiBaseUrl settings; apiStyle := apiStyle settings;
     codexCommand := codexCommand settings; model := model settings;
     requestTimeoutMs := requestTimeoutMs settings;
     writingSystemPrompt :=
       trimmedOr value (writingSystemPrompt DEFAULT_SETTINGS) |}.

(** A JavaScript number: not a number, an infinity, or a finite value
    (every finite double is a rational). *)
Inductive JsNumber :=
  | NaN
  | PosInfinity
  | NegInfinity
  | Finite (q : Q).

(** The [onChange] handler of the timeout field, from [parsed], the
    value of [Number(value)]:
    [Number.isFinite(parsed) && parsed >= 1000 ? Math.floor(parsed) : default]. *)
Definition changeRequestTimeout (parsed : JsNumber) (settings : PluginSettings)
  : PluginSettings :=
  {| aiBackend := aiBackend settings; apiKey := apiKey settings;
     apiBaseUrl := apiBaseUrl settings; apiStyle := apiStyle settings;
     codexCommand := codexCommand settings; model := model settings;
     requestTimeoutMs :=
       match parsed with
       | Finite q =>
           if Qle_bool (inject_Z 1000) q then Qfloor q
           else requestTimeoutMs DEFAULT_SETTINGS
       | _ => requestTimeoutMs DEFAULT_SETTINGS
       end;
     writingSystemPrompt := writingSystemPrompt settings |}.

End Plugin.

(** ** Thread modes per file ([src/unnamed/part_000]) *)

Module Threads.

Record ThreadOverride := mkOverride {
  mode : CodexThreadMode;
  threadId : jsstring
}.

(** The thread settings that the writing module reads; [SPECS.md] gives
    their types: a global mode and id, and a record from file paths to
    overrides. *)
Record ThreadSettings := mkThreadSettings {
  codexThreadMode : CodexThreadMode;
  codexThreadId : jsstring;
  codexThreadOverrides : gmap jsstring ThreadOverride
}.

Definition withOverrides (ts : ThreadSettings)
    (overrides : gmap jsstring ThreadOverride) : ThreadSettings :=
  {| codexThreadMode := codexThreadMode ts;
     codexThreadId := codexThreadId ts;
     codexThreadOverrides := overrides |}.

Definition THREAD_ID_REQUIRED : jsstring :=
  js "Thread ID is required when mode is 'specific'.".
Definition THREAD_MODE_SAVED : jsstring := js "Saved thread mode for current file.".
Definition OPEN_NOTE_FIRST : jsstring := js "Open a Markdown note first.".
Definition NO_THREAD_MODE : jsstring := js "No file-specific thread mode is set.".
Definition THREAD_MODE_CLEARED : jsstring := js "Cleared file-specific thread mode.".

(** The Save button of [FileThreadModeModal], lines 343-358: the
    settings afterwards and the notice shown. *)
Definition saveThreadMode (filePath : jsstring) (modeValue : CodexThreadMode)
    (idValue : jsstring) (ts : ThreadSettings) : ThreadSettings * jsstring :=
  let threadId := trim idValue in
  let specific :=
    match modeValue with ThreadSpecific => true | _ => false end in
  if specific && negb (truthy threadId) then (ts, THREAD_ID_REQUIRED)
  else
    (withOverrides ts
       (<[filePath := {| mode := modeValue; threadId := threadId |}]>
          (codexThreadOverrides ts)),
     THREAD_MODE_SAVED).

(** [filePath] in a boolean context: present and not empty. *)
Definition presentPath (filePath : option jsstring) : option jsstring :=
  match filePath with
  | Some p => if truthy p then Some p else None
  | None => None
  end.

(** [setThreadModeForCurrentFile], lines 362-374: the mode and id the
    modal opens with, or the notice. *)
Definition setThreadModeForCurrentFile (filePath : option jsstring)
    (ts : ThreadSettings) : (CodexThreadMode * jsstring) + jsstring :=
  match presentPath filePath with
  | None => inr OPEN_NOTE_FIRST
  | Some p =>
      let current := codexThreadOverrides ts !! p in
      inl (default (codexThreadMode ts) (mode <$> current),
           default (codexThreadId ts) (threadId <$> current))
  end.

(** [clearThreadModeForCurrentFile], lines 376-391. *)
Definition clearThreadModeForCurrentFile (filePath : option jsstring)
    (ts : ThreadSettings) : ThreadSettings * jsstring :=
  match presentPath filePath with
  | None => (ts, OPEN_NOTE_FIRST)
  | Some p =>
      match codexThreadOverrides ts !! p with
      | None => (ts, NO_THREAD_MODE)
      | Some _ =>
          (withOverrides ts (delete p (codexThreadOverrides ts)),
           THREAD_MODE_CLEARED)
      end
  end.

(** Every override that asks for a specific thread names one. *)
Definition overridesNamed (ts : ThreadSettings) : Prop :=
  ∀ p o, codexThreadOverrides ts !! p = Some o →
    mode o = ThreadSpecific → threadId o ≠ [].

End Threads.

(** ** The improve command ([improveCurrentWriting], [src/unnamed/part_000]) *)

Module Flow.

Import Backend Plugin Threads Writing.

(** A Markdown view: the path of its file, the selection and the whole
    text of its editor. *)
Record View := mkView {
  filePath : option jsstring;
  selection : jsstring;
  value : jsstring
}.

(** The Markdown views of the open leaves, in order, and the active
    one. *)
Record Workspace := mkWorkspace {
  leaves : list View;
  activeView : option View
}.

(** [getMarkdownViewForFilePath], lines 11-23. *)
Definition getMarkdownViewForFilePath (ws : Workspace) (path : jsstring)
  : option View :=
  snd <$> list_find (λ view, filePath view = Some path) (leaves ws).

(** Lines 186-188. *)
Definition resolveView (ws : Workspace) (targetFilePath : option jsstring)
  : option View :=
  match presentPath targetFilePath with
  | Some path =>
      match getMarkdownViewForFilePath ws path with
      | Some view => Some view
      | None => activeView ws
      end
  | None => activeView ws
  end.

(** Lines 227-234. *)
Definition editPrompt (settings : PluginSettings)
    (userInstruction : option jsstring) : jsstring :=
  match userInstruction with
  | Some instruction =>
      if truthy (trim instruction) then
        join [LF]
          [ writingSystemPrompt settings;
            [];
            js "Additional user instruction for this edit:";
            trim instruction ]
      else writingSystemPrompt settings
  | None => writingSystemPrompt settings
  end.

(** How a run of the command ends for the user. *)
Inductive Outcome :=
  (* a notice, and the Codex setup modal *)
  | SetupNeeded (notice : jsstring)
  (* a notice only *)
  | Notice (notice : jsstring)
  (* the notice [Failed to improve writing: ...] for a thrown error *)
  | FailureNotice (e : JsError)
  (* the review modal *)
  | Review (originalText improvedText : jsstring) (useSelection : bool)
  (* the client has not answered *)
  | Waiting.

Definition NOT_CONFIGURED : jsstring :=
  js "AI backend is not configured. Run 'Set up Codex login'.".
Definition NOTE_EMPTY : jsstring := js "The current note is empty.".
Definition NO_BODY : jsstring :=
  js "No editable body text found outside front matter.".
Definition NO_IMPROVED_TEXT : jsstring := js "No improved text returned.".

(** [improveCurrentWriting], lines 174-273, with the call of
    [aiClient.improveWriting] as [ai]. *)
Definition improveCurrentWritingWith (ai : ImproveWritingInput → Completion)
    (settings : PluginSettings) (ts : ThreadSettings) (ws : Workspace)
    (userInstruction targetFilePath : option jsstring) : Outcome :=
  if negb (hasAiConfigured settings) then SetupNeeded NOT_CONFIGURED
  else
    match resolveView ws targetFilePath with
    | None => Notice OPEN_NOTE_FIRST
    | Some view =>
        let selectedText := selection view in
        let useSelection := truthy (trim selectedText) in
        let sourceText := if useSelection then selectedText else value view in
        if negb (truthy (trim sourceText)) then Notice NOTE_EMPTY
        else
          let threadOverride :=
            match presentPath (filePath view) with
            | Some path => codexThreadOverrides ts !! path
            | None => None
            end in
          let split := splitFrontMatter sourceText in
          let preservedFrontMatter :=
            if useSelection then [] else frontMatter split in
          let textForAi := if useSelection then sourceText else body split in
          if negb (truthy (trim textForAi)) then Notice NO_BODY
          else
            match ai {| text := textForAi;
                        systemPrompt := editPrompt settings userInstruction;
                        Client.codexThreadMode := mode <$> threadOverride;
                        Client.codexThreadId := threadId <$> threadOverride |}
            with
            | Pending => Waiting
            | Completed (Threw e) => FailureNotice e
            | Completed (Returned improvedText) =>
                if negb (truthy (trim improvedText)) then Notice NO_IMPROVED_TEXT
                else
                  Review sourceText
                    (if useSelection then improvedText
                     else preservedFrontMatter ++ improvedText)
                    useSelection
            end
    end.

Definition improveCurrentWriting (settings : PluginSettings) (host : Host)
    (ts : ThreadSettings) (ws : Workspace)
    (userInstruction targetFilePath : option jsstring) : Outcome :=
  improveCurrentWritingWith (improveWriting settings host)
    settings ts ws userInstruction targetFilePath.

End Flow.

(** * Properties *)

(** ** Strings *)

Section StringLemmas.

Lemma splitLF_line (l : jsstring) : LF ∉ l → splitLF l = [l].
Proof.
  induction l as [|c l IH]; [done|].
  intros Hnot. apply not_elem_of_cons in Hnot as [Hc Hl].
  simpl. destruct (N.eqb_spec c LF) as [->|_]; [done|].
  by rewrite IH.
Qed.

Lemma splitLF_app (l rest : jsstring) :
  LF ∉ l → splitLF (l ++ LF :: rest) = l :: splitLF rest.
Proof.
  induction l as [|c l IH]; intros Hnot.
  - reflexivity.
  - apply not_elem_of_cons in Hnot as [Hc Hl].
    simpl. destruct (N.eqb_spec c LF) as [->|_]; [done|].
    by rewrite IH.
Qed.

Lemma splitLF_join (ls : list jsstring) :
  ls ≠ [] → Forall (λ l, LF ∉ l) ls → splitLF (join [LF] ls) = ls.
Proof.
  induction ls as [|l ls IH]; [done|].
  intros _ Hall. apply Forall_cons in Hall as [Hl Hls].
  destruct ls as [|l' ls].
  - simpl. by apply splitLF_line.
  - change (join [LF] (l :: l' :: ls)) with (l ++ LF :: join [LF] (l' :: ls)).
    rewrite splitLF_app by done. f_equal. by apply IH.
Qed.

Lemma splitLines_nonempty text : splitLines text ≠ [].
Proof.
  induction text as [|c rest IH]; [done|].
  simpl. destruct (c =? LF)%N; [done|].
  destruct ((c =? CR)%N && startsWithLF rest); [done|].
  by destruct (splitLines rest).
Qed.

Lemma splitLines_no_LF text : Forall (λ l, LF ∉ l) (splitLines text).
Proof.
  induction text as [|c rest IH].
  - repeat constructor. apply not_elem_of_nil.
  - simpl. destruct (N.eqb_spec c LF) as [->|Hc].
    + constructor; [apply not_elem_of_nil | done].
    + destruct ((c =? CR)%N && startsWithLF rest); [done|].
      destruct (splitLines rest) as [|l ls].
      * repeat constructor. by apply not_elem_of_cons; split; [|apply not_elem_of_nil].
      * apply Forall_cons in IH as [Hl Hls]. constructor; [|done].
        by apply not_elem_of_cons.
Qed.

End StringLemmas.

(** ** The score table and the direction grid *)

Section TableLemmas.

Variables A B : list jsstring.

Lemma lcsTable_0_l j : lcsTable A B 0 j = 0.
Proof. reflexivity. Qed.

Lemma lcsTable_0_r i : lcsTable A B i 0 = 0.
Proof. by destruct i. Qed.

Lemma lcsTable_S i j :
  lcsTable A B (S i) (S j) =
    if bool_decide (A !! i = B !! j) then S (lcsTable A B i j)
    else if lcsTable A B (S i) j <=? lcsTable A B i (S j)
         then lcsTable A B i (S j)
         else lcsTable A B (S i) j.
Proof. reflexivity. Qed.

Lemma lcsTable_le_row i j : lcsTable A B i j ≤ i.
Proof.
  revert j. induction i as [|i IHi]; [done|].
  induction j as [|j IHj]; [rewrite lcsTable_0_r; lia|].
  rewrite lcsTable_S. case_bool_decide.
  - specialize (IHi j). lia.
  - destruct (Nat.leb_spec (lcsTable A B (S i) j) (lcsTable A B i (S j))).
    + specialize (IHi (S j)). lia.
    + done.
Qed.

Lemma cell_index_inj (c i j i' j' : nat) :
  j < c → j' < c → i * c + j = i' * c + j' → i = i' ∧ j = j'.
Proof.
  intros Hj Hj' Heq.
  assert (i = i') as ->; [|lia].
  destruct (Nat.lt_trichotomy i i') as [Hlt|[->|Hlt]]; [|done|].
  - assert (S i * c ≤ i' * c) by (apply Nat.mul_le_mono_r; lia). lia.
  - assert (S i' * c ≤ i * c) by (apply Nat.mul_le_mono_r; lia). lia.
Qed.

Hypothesis rows_fit : (Z.of_nat (length A) < 2 ^ 32)%Z.

Lemma cell_invariant i j t :
  1 ≤ i ≤ length A → 1 ≤ j ≤ length B →
  tablesAt A B i (j - 1) t → tablesAt A B i j (cell A B i j t).
Proof.
  intros Hi Hj ((Hplen & Hprev) & (Hclen & Hcurr) & (Hdlen & Hdirs)).
  destruct i as [|i]; [lia|]. destruct j as [|j]; [lia|].
  replace (S i - 1) with i in * by lia.
  replace (S j - 1) with j in * by lia.
  assert (Hup : prev t !!! S j = Z.of_nat (lcsTable A B i (S j)))
    by (apply Hprev; lia).
  assert (Hdiag : prev t !!! j = Z.of_nat (lcsTable A B i j))
    by (apply Hprev; lia).
  assert (Hleft : curr t !!! j = Z.of_nat (lcsTable A B (S i) j))
    by (apply Hcurr; lia).
  assert (Hidx : S i * (length B + 1) + S j
                 < (length A + 1) * (length B + 1)) by nia.
  assert (Hdir : dirOf A B (S i) (S j) =
            if bool_decide (A !! i = B !! j) then 3%Z
            else if lcsTable A B (S i) j <=? lcsTable A B i (S j)
                 then 1%Z else 2%Z).
  { unfold dirOf. by replace (S i - 1) with i by lia;
      replace (S j - 1) with j by lia. }
  assert (Hscore : ∀ v d,
    v = Z.of_nat (lcsTable A B (S i) (S j)) → d = dirOf A B (S i) (S j) →
    tablesAt A B (S i) (S j)
      {| directions := <[S i * (length B + 1) + S j := d]> (directions t);
         prev := prev t;
         curr := <[S j := v]> (curr t) |}).
  { intros v d -> ->. unfold tablesAt; cbn [prev curr directions].
    replace (S i - 1) with i by lia.
    split; [done|]. split.
    - split; [by rewrite length_insert|].
      intros j0 Hj0. destruct (decide (j0 = S j)) as [->|Hne].
      + rewrite list_lookup_total_insert_eq; [done|lia].
      + rewrite list_lookup_total_insert_ne by done. apply Hcurr. lia.
    - split; [by rewrite length_insert|].
      intros i' j' Hi' Hj' Hcase.
      destruct (decide (i' = S i ∧ j' = S j)) as [[-> ->]|Hne].
      + rewrite list_lookup_total_insert_eq; [done|lia].
      + rewrite list_lookup_total_insert_ne.
        * apply Hdirs; [done|done|]. lia.
        * intros Heq. apply cell_index_inj in Heq; [|lia|lia]. lia. }
  unfold cell. cbv zeta.
  replace (S i - 1) with i by lia. replace (S j - 1) with j by lia.
  rewrite lcsTable_S in Hscore. rewrite Hdir in Hscore.
  case_bool_decide.
  - apply Hscore; [|done]. rewrite Hdiag. unfold wrap32.
    pose proof (lcsTable_le_row i j).
    rewrite Z.mod_small; lia.
  - rewrite Hup, Hleft, Z.geb_leb.
    destruct (Nat.leb_spec (lcsTable A B (S i) j) (lcsTable A B i (S j)))
      as [Hle|Hgt].
    + rewrite (proj2 (Z.leb_le _ _)) by lia. by apply Hscore.
    + rewrite (proj2 (Z.leb_gt _ _)) by lia. by apply Hscore.
Qed.

Lemma inner_loop_invariant i k t :
  1 ≤ i ≤ length A → k ≤ length B →
  tablesAt A B i 0 t →
  tablesAt A B i k (foldl (λ t j, cell A B i j t) t (seq 1 k)).
Proof.
  intros Hi. induction k as [|k IH]; intros Hk Ht; [done|].
  rewrite seq_S, foldl_snoc. simpl.
  apply cell_invariant; [done|lia|].
  replace (S k - 1) with k by lia. apply IH; [lia|done].
Qed.

Lemma row_invariant i t :
  1 ≤ i ≤ length A →
  tablesAt A B i 0 t → tablesAt A B (S i) 0 (row A B t i).
Proof.
  intros Hi Ht.
  pose proof (inner_loop_invariant i (length B) t Hi (le_n _) Ht)
    as (_ & (Hclen & Hcurr) & (Hdlen & Hdirs)).
  unfold row, tablesAt; cbn [prev curr directions].
  replace (S i - 1) with i by lia.
  split; [done|]. split.
  - split; [by rewrite length_replicate|].
    intros j Hj. replace j with 0 by lia.
    rewrite lookup_total_replicate_2 by lia. by rewrite lcsTable_0_r.
  - split; [done|]. intros i' j' Hi' Hj' Hcase.
    apply Hdirs; [done|done|lia].
Qed.

Lemma initTables_invariant : tablesAt A B 1 0 (initTables A B).
Proof.
  unfold tablesAt, initTables, rowHolds, dirsFilled; cbn [prev curr directions].
  rewrite !length_replicate. split; [|split]; (split; [done|]).
  - intros j Hj. by rewrite lookup_total_replicate_2 by lia.
  - intros j Hj. replace j with 0 by lia.
    by rewrite lookup_total_replicate_2 by lia.
  - intros i' j' Hi' Hj' Hcase. lia.
Qed.

Lemma outer_loop_invariant k :
  k ≤ length A → tablesAt A B (S k) 0 (foldl (row A B) (initTables A B) (seq 1 k)).
Proof.
  induction k as [|k IH]; intros Hk; [apply initTables_invariant|].
  rewrite seq_S, foldl_snoc. simpl.
  apply row_invariant; [lia|]. apply IH. lia.
Qed.

Lemma fillTables_directions :
  dirsFilled A B (length A) (length B) (directions (fillTables A B)).
Proof.
  pose proof (outer_loop_invariant (length A) (le_n _)) as (_ & _ & Hlen & Hdirs).
  split; [done|]. intros i' j' Hi' Hj' Hcase.
  apply Hdirs; [done|done|lia].
Qed.

End TableLemmas.

(** ** The score table holds longest-common-subsequence lengths *)

Section CommonSubsequences.

Variables A B : list jsstring.

Lemma sublist_snoc_inv {X} (l xs : list X) (a : X) :
  l `sublist_of` xs ++ [a] →
  l `sublist_of` xs ∨ ∃ l', l = l' ++ [a] ∧ l' `sublist_of` xs.
Proof.
  intros (k1 & k2 & -> & Hk1 & Hk2)%sublist_app_r.
  apply sublist_cons_r in Hk2 as [Hk2|(k' & -> & Hk')].
  - apply sublist_nil_r in Hk2 as ->. left. by rewrite app_nil_r.
  - apply sublist_nil_r in Hk' as ->. right. eauto.
Qed.

Lemma sublist_snoc_l {X} (l xs : list X) (a : X) :
  l ++ [a] `sublist_of` xs → l `sublist_of` xs.
Proof. intros H. etrans; [|exact H]. by apply sublist_inserts_r. Qed.

Lemma lcsTable_bounds_common i :
  ∀ j l, i ≤ length A → j ≤ length B →
    l `sublist_of` take i A → l `sublist_of` take j B →
    length l ≤ lcsTable A B i j.
Proof.
  induction i as [|i IHi].
  { intros j l _ _ Hl _. apply sublist_nil_r in Hl as ->. simpl; lia. }
  induction j as [|j IHj]; intros l Hi Hj HlA HlB.
  { apply sublist_nil_r in HlB as ->. simpl; lia. }
  destruct (lookup_lt_is_Some_2 A i) as [a Ha]; [lia|].
  destruct (lookup_lt_is_Some_2 B j) as [b Hb]; [lia|].
  rewrite (take_S_r _ _ _ Ha) in HlA. rewrite (take_S_r _ _ _ Hb) in HlB.
  rewrite lcsTable_S, Ha, Hb.
  assert (Hmax : ∀ x y, x ≤ (if x <=? y then y else x)
                        ∧ y ≤ (if x <=? y then y else x)).
  { intros x y. destruct (Nat.leb_spec x y); lia. }
  destruct (Hmax (lcsTable A B (S i) j) (lcsTable A B i (S j))) as [Hleft Hup].
  case_bool_decide as Heq.
  - (* the two last lines are equal *)
    injection Heq as <-.
    apply sublist_snoc_inv in HlA as [HlA|(l1 & -> & Hl1)];
      apply sublist_snoc_inv in HlB as [HlB|(l2 & Hl2eq & Hl2)].
    + pose proof (IHi j l ltac:(lia) ltac:(lia) HlA HlB). lia.
    + subst l. apply sublist_snoc_l in HlA.
      pose proof (IHi j l2 ltac:(lia) ltac:(lia) HlA Hl2).
      rewrite length_app; simpl. lia.
    + apply sublist_snoc_l in HlB.
      pose proof (IHi j l1 ltac:(lia) ltac:(lia) Hl1 HlB).
      rewrite length_app; simpl. lia.
    + apply app_inj_tail in Hl2eq as [<- _].
      pose proof (IHi j l1 ltac:(lia) ltac:(lia) Hl1 Hl2).
      rewrite length_app; simpl. lia.
  - (* they differ *)
    apply sublist_snoc_inv in HlA as [HlA|(l1 & -> & Hl1)].
    + enough (length l ≤ lcsTable A B i (S j)) by lia.
      apply IHi; [lia|done|done|]. by rewrite (take_S_r _ _ _ Hb).
    + apply sublist_snoc_inv in HlB as [HlB|(l2 & Hl2eq & Hl2)].
      * enough (length (l1 ++ [a]) ≤ lcsTable A B (S i) j) by lia.
        apply IHj; [done|lia| |done]. rewrite (take_S_r _ _ _ Ha).
        by apply sublist_app.
      * apply app_inj_tail in Hl2eq as [_ ->]. done.
Qed.

End CommonSubsequences.

(** ** The backtracking loop *)

Section BacktrackLemmas.

Variables A B : list jsstring.
Variable d : list Z.
Hypothesis grid : dirsFilled A B (length A) (length B) d.

Lemma dirOf_cases i j :
  (dirOf A B (S i) (S j) = 3%Z ∧ A !! i = B !! j
     ∧ lcsTable A B (S i) (S j) = S (lcsTable A B i j))
  ∨ (dirOf A B (S i) (S j) = 1%Z
     ∧ lcsTable A B (S i) (S j) = lcsTable A B i (S j))
  ∨ (dirOf A B (S i) (S j) = 2%Z
     ∧ lcsTable A B (S i) (S j) = lcsTable A B (S i) j).
Proof.
  unfold dirOf. rewrite lcsTable_S.
  replace (S i - 1) with i by lia. replace (S j - 1) with j by lia.
  case_bool_decide; [by left|right].
  destruct (lcsTable A B (S i) j <=? lcsTable A B i (S j)); [by left|by right].
Qed.

Lemma readOp_render op : readOp (render op) = op.
Proof. by destruct op. Qed.

Lemma backtrack_script fuel :
  ∀ i j acc, i ≤ length A → j ≤ length B → i + j ≤ fuel →
    ∃ ops,
      backtrack A B d fuel i j acc = acc ++ reverse (render <$> ops)
      ∧ originalOf ops = take i A
      ∧ updatedOf ops = take j B
      ∧ length (equalOf ops) = lcsTable A B i j.
Proof.
  assert (Hpush : ∀ acc ops op,
    (acc ++ [render op]) ++ reverse (render <$> ops)
    = acc ++ reverse (render <$> ops ++ [op])).
  { intros acc ops op. rewrite fmap_app, reverse_app. simpl.
    by rewrite <- app_assoc. }
  induction fuel as [|fuel IH]; intros i j acc Hi Hj Hfuel.
  { exists []. replace i with 0 by lia. replace j with 0 by lia.
    simpl. by rewrite app_nil_r. }
  destruct i as [|i], j as [|j].
  - exists []. simpl. by rewrite app_nil_r.
  - (* first row: only insertions remain *)
    destruct (lookup_lt_is_Some_2 B j) as [b Hb]; [lia|].
    destruct (IH 0 j (acc ++ [render (Insert b)])) as (ops & Hrun & HA & HB & Heq);
      [lia|lia|lia|].
    exists (ops ++ [Insert b]). cbn [backtrack]. cbv zeta.
    replace (S j - 1) with j by lia. rewrite Hb. simpl.
    split; [by rewrite <- Hpush, <- Hrun|].
    unfold originalOf, updatedOf, equalOf in *. rewrite !omap_app. simpl.
    rewrite HA, HB, (take_S_r _ _ _ Hb), !app_nil_r. done.
  - (* first column: only deletions remain *)
    destruct (lookup_lt_is_Some_2 A i) as [a Ha]; [lia|].
    destruct (IH i 0 (acc ++ [render (Delete a)])) as (ops & Hrun & HA & HB & Heq);
      [lia|lia|lia|].
    exists (ops ++ [Delete a]). cbn [backtrack]. cbv zeta.
    replace (S i - 1) with i by lia. rewrite Ha. simpl.
    split; [by rewrite <- Hpush, <- Hrun|].
    unfold originalOf, updatedOf, equalOf in *. rewrite !omap_app. simpl.
    rewrite HA, HB, (take_S_r _ _ _ Ha), !app_nil_r.
    by rewrite Heq, !lcsTable_0_r.
  - destruct (lookup_lt_is_Some_2 A i) as [a Ha]; [lia|].
    destruct (lookup_lt_is_Some_2 B j) as [b Hb]; [lia|].
    destruct grid as [_ Hgrid].
    specialize (Hgrid (S i) (S j)). rewrite Nat.lt_eq_cases in Hi.
    assert (Hd : d !!! (S i * (length B + 1) + S j) = dirOf A B (S i) (S j)).
    { apply Hgrid; lia. }
    cbn [backtrack]. cbv zeta. rewrite Hd.
    replace (S i - 1) with i by lia. replace (S j - 1) with j by lia.
    rewrite Ha, Hb.
    destruct (dirOf_cases i j) as [(-> & Hab & HT)|[(-> & HT)|(-> & HT)]].
    + (* diagonal *)
      rewrite Ha, Hb in Hab. injection Hab as ->.
      destruct (IH i j (acc ++ [render (Equal b)])) as (ops & Hrun & HA & HB & Heq);
        [lia|lia|lia|].
      exists (ops ++ [Equal b]). simpl.
      split; [by rewrite <- Hpush, <- Hrun|].
      unfold originalOf, updatedOf, equalOf in *. rewrite !omap_app. simpl.
      rewrite HA, HB, (take_S_r _ _ _ Ha), (take_S_r _ _ _ Hb).
      rewrite length_app, Heq, HT. simpl. repeat split; lia.
    + (* up *)
      destruct (IH i (S j) (acc ++ [render (Delete a)]))
        as (ops & Hrun & HA & HB & Heq); [lia|lia|lia|].
      exists (ops ++ [Delete a]). simpl.
      split; [by rewrite <- Hpush, <- Hrun|].
      unfold originalOf, updatedOf, equalOf in *. rewrite !omap_app. simpl.
      rewrite HA, HB, (take_S_r _ _ _ Ha), !app_nil_r.
      by rewrite Heq, HT.
    + (* left *)
      destruct (IH (S i) j (acc ++ [render (Insert b)]))
        as (ops & Hrun & HA & HB & Heq); [lia|lia|lia|].
      exists (ops ++ [Insert b]). simpl.
      split; [by rewrite <- Hpush, <- Hrun|].
      unfold originalOf, updatedOf, equalOf in *. rewrite !omap_app. simpl.
      rewrite HA, HB, (take_S_r _ _ _ Hb), !app_nil_r.
      by rewrite Heq, HT.
Qed.

End BacktrackLemmas.

(** The bound [n + m] on the iterations of the [while] loop is never
    reached early: any larger bound gives the same array. *)
Lemma backtrack_enough_fuel A B d f1 :
  ∀ f2 i j acc, i + j ≤ f1 → i + j ≤ f2 →
    backtrack A B d f1 i j acc = backtrack A B d f2 i j acc.
Proof.
  induction f1 as [|f1 IH]; intros f2 i j acc H1 H2.
  { replace i with 0 by lia. replace j with 0 by lia. by destruct f2. }
  destruct f2 as [|f2].
  { replace i with 0 by lia. replace j with 0 by lia. done. }
  cbn [backtrack]. cbv zeta.
  destruct i as [|i], j as [|j]; simpl; try done.
  - apply IH; lia.
  - apply IH; lia.
  - destruct (Z.eqb _ 3); [apply IH; lia|].
    destruct (Z.eqb _ 2); apply IH; lia.
Qed.

(** ** The rendered script *)

Section RenderedScript.

Lemma rendered_no_LF ops :
  Forall (λ l, LF ∉ l) (originalOf ops) →
  Forall (λ l, LF ∉ l) (updatedOf ops) →
  Forall (λ r, LF ∉ r) (render <$> ops).
Proof.
  induction ops as [|op ops IH]; [constructor|].
  assert (Htag : ∀ c l, c ≠ LF → LF ∉ l → LF ∉ c :: l).
  { intros c l Hc Hl. by apply not_elem_of_cons. }
  destruct op as [l|l|l]; cbn; intros HA HB;
    try apply Forall_cons in HA as [? ?];
    try apply Forall_cons in HB as [? ?];
    (constructor; [by apply Htag|by apply IH]).
Qed.

Lemma rendered_head ops :
  ops ≠ [] →
  ∃ c, head (join [LF] (render <$> ops)) = Some c
       ∧ (c = SPACE ∨ c = PLUS ∨ c = MINUS).
Proof.
  destruct ops as [|op ops]; [done|]. intros _.
  destruct op as [l|l|l], ops as [|op' ops]; simpl; eauto.
Qed.

Lemma equalOf_sublist_original ops : equalOf ops `sublist_of` originalOf ops.
Proof.
  induction ops as [|[l|l|l] ops IH]; cbn; [done| | |].
  - by apply sublist_skip.
  - done.
  - by apply sublist_cons.
Qed.

Lemma equalOf_sublist_updated ops : equalOf ops `sublist_of` updatedOf ops.
Proof.
  induction ops as [|[l|l|l] ops IH]; cbn; [done| | |].
  - by apply sublist_skip.
  - by apply sublist_cons.
  - done.
Qed.

Lemma script_lengths ops :
  length (originalOf ops) = length (equalOf ops) + length (deleteOf ops)
  ∧ length (updatedOf ops) = length (equalOf ops) + length (insertOf ops).
Proof.
  unfold originalOf, updatedOf, equalOf, deleteOf, insertOf.
  induction ops as [|op ops [IH1 IH2]]; [done|].
  change (op :: ops) with ([op] ++ ops).
  rewrite !omap_app, !length_app, IH1, IH2.
  destruct op; simpl; lia.
Qed.

(** What the diff of two line arrays is, below the size guard. *)
Lemma diffOfLines_script (A B : list jsstring) :
  A ≠ [] → B ≠ [] →
  Forall (λ l, LF ∉ l) A → Forall (λ l, LF ∉ l) B →
  (Z.of_nat (length A) * Z.of_nat (length B) ≤ MAX_CELLS)%Z →
  ∃ ops,
    diffOfLines A B = join [LF] (render <$> ops)
    ∧ readScript (diffOfLines A B) = ops
    ∧ originalOf ops = A
    ∧ updatedOf ops = B
    ∧ length (equalOf ops) = lcsTable A B (length A) (length B).
Proof.
  intros HA HB HlfA HlfB Hcells.
  assert (0 < length A ∧ 0 < length B) as [HnA HnB].
  { destruct A, B; simpl; try done; lia. }
  assert (Hfit : (Z.of_nat (length A) < 2 ^ 32)%Z).
  { unfold MAX_CELLS in Hcells. nia. }
  pose proof (fillTables_directions A B Hfit) as Hgrid.
  destruct (backtrack_script A B _ Hgrid (length A + length B)
              (length A) (length B) [] (le_n _) (le_n _) (le_n _))
    as (ops & Hrun & Horig & Hupd & Heq).
  rewrite firstn_all in Horig, Hupd.
  assert (Hdiff : diffOfLines A B = join [LF] (render <$> ops)).
  { unfold diffOfLines. rewrite (proj2 (Z.ltb_ge _ _)) by done.
    cbv zeta. rewrite Hrun. simpl. by rewrite reverse_involutive. }
  exists ops. split; [done|]. split; [|done].
  unfold readScript. rewrite Hdiff, splitLF_join.
  - rewrite <- list_fmap_compose. rewrite <- (list_fmap_id ops) at 2.
    apply list_fmap_ext. intros _ op _. apply readOp_render.
  - destruct ops; [|done]. by subst A.
  - apply rendered_no_LF; by subst.
Qed.

End RenderedScript.

(** ** The diff of two texts *)

Section DiffClaims.

Lemma buildUnifiedDiff_script (A B : jsstring) :
  (cellCount A B ≤ MAX_CELLS)%Z →
  ∃ ops,
    buildUnifiedDiff A B = join [LF] (render <$> ops)
    ∧ readScript (buildUnifiedDiff A B) = ops
    ∧ originalOf ops = splitLines A
    ∧ updatedOf ops = splitLines B
    ∧ length (equalOf ops)
      = lcsTable (splitLines A) (splitLines B)
          (length (splitLines A)) (length (splitLines B)).
Proof.
  intros Hcells. apply diffOfLines_script;
    auto using splitLines_nonempty, splitLines_no_LF.
Qed.

(** C1. Below the size guard, the script read from the text that
    [buildUnifiedDiff A B] returns reconstructs both inputs: its Equal
    and Delete lines, in order, are [splitLines A]; its Equal and Insert
    lines, in order, are [splitLines B]. *)
Theorem diff_round_trip (A B : jsstring) :
  (cellCount A B ≤ MAX_CELLS)%Z →
  originalOf (readScript (buildUnifiedDiff A B)) = splitLines A
  ∧ updatedOf (readScript (buildUnifiedDiff A B)) = splitLines B.
Proof.
  intros Hcells.
  destruct (buildUnifiedDiff_script A B Hcells) as (ops & _ & -> & HA & HB & _).
  done.
Qed.

(** C2. Below the size guard, the Equal lines of the script are a longest
    common subsequence of the two line arrays, so the script has
    [n + m - 2 * lcs] insertions and deletions, and no script that turns
    the one line array into the other has fewer. *)
Theorem diff_minimal (A B : jsstring) :
  (cellCount A B ≤ MAX_CELLS)%Z →
  let ops := readScript (buildUnifiedDiff A B) in
  longestCommonSubsequence (equalOf ops) (splitLines A) (splitLines B)
  ∧ length (insertOf ops) + length (deleteOf ops) + 2 * length (equalOf ops)
    = length (splitLines A) + length (splitLines B)
  ∧ ∀ ops', originalOf ops' = splitLines A → updatedOf ops' = splitLines B →
      length (insertOf ops) + length (deleteOf ops)
      ≤ length (insertOf ops') + length (deleteOf ops').
Proof.
  intros Hcells ops. subst ops.
  destruct (buildUnifiedDiff_script A B Hcells) as (ops & _ & -> & HA & HB & Heq).
  pose proof (script_lengths ops) as [Hn Hm]. rewrite HA in Hn. rewrite HB in Hm.
  assert (Hmax : ∀ l', l' `sublist_of` splitLines A → l' `sublist_of` splitLines B →
                   length l' ≤ length (equalOf ops)).
  { intros l' HlA HlB. rewrite Heq.
    apply lcsTable_bounds_common; [done|done| |]; by rewrite firstn_all. }
  split; [|split; [lia|]].
  - split; [|split; [|done]].
    + rewrite <- HA. apply equalOf_sublist_original.
    + rewrite <- HB. apply equalOf_sublist_updated.
  - intros ops' HA' HB'.
    pose proof (script_lengths ops') as [Hn' Hm'].
    rewrite HA' in Hn'. rewrite HB' in Hm'.
    assert (length (equalOf ops') ≤ length (equalOf ops)); [|lia].
    apply Hmax.
    + rewrite <- HA'. apply equalOf_sublist_original.
    + rewrite <- HB'. apply equalOf_sublist_updated.
Qed.

(** C8. Above 250000 cells [buildUnifiedDiff] returns the fixed sentinel;
    otherwise it returns a rendered script of the two inputs, which is
    never the sentinel. *)
Theorem diff_size_guard (A B : jsstring) :
  ((MAX_CELLS < cellCount A B)%Z → buildUnifiedDiff A B = TOO_LARGE)
  ∧ ((cellCount A B ≤ MAX_CELLS)%Z →
       buildUnifiedDiff A B ≠ TOO_LARGE
       ∧ ∃ ops, buildUnifiedDiff A B = join [LF] (render <$> ops)
                ∧ originalOf ops = splitLines A
                ∧ updatedOf ops = splitLines B).
Proof.
  split; intros Hcells.
  - unfold buildUnifiedDiff, diffOfLines.
    by rewrite (proj2 (Z.ltb_lt _ _)).
  - destruct (buildUnifiedDiff_script A B Hcells) as (ops & Hdiff & _ & HA & HB & _).
    split; [|by eauto].
    rewrite Hdiff. intros Hsentinel.
    destruct (rendered_head ops) as (c & Hc & Htag).
    { intros ->. by destruct (splitLines_nonempty A). }
    rewrite Hsentinel in Hc. injection Hc as <-.
    by destruct Htag as [?|[?|?]].
Qed.

End DiffClaims.

Lemma diff_round_trip_witness :
  originalOf (readScript (buildUnifiedDiff textAB textBA)) = [js "a"; js "b"]
  ∧ updatedOf (readScript (buildUnifiedDiff textAB textBA)) = [js "b"; js "a"].
Proof. apply (diff_round_trip textAB textBA). by vm_compute. Defined.

Lemma diff_minimal_witness :
  longestCommonSubsequence
    (equalOf (readScript (buildUnifiedDiff textAB textBA)))
    [js "a"; js "b"] [js "b"; js "a"]
  ∧ length (insertOf (readScript (buildUnifiedDiff textAB textBA)))
    + length (deleteOf (readScript (buildUnifiedDiff textAB textBA)))
    + 2 * length (equalOf (readScript (buildUnifiedDiff textAB textBA))) = 4.
Proof.
  pose proof (diff_minimal textAB textBA ltac:(by vm_compute)) as (Hlcs & Hcount & _).
  by split.
Defined.

Lemma diff_size_guard_witness :
  buildUnifiedDiff manyLines manyLines = TOO_LARGE
  ∧ buildUnifiedDiff textAB textBA ≠ TOO_LARGE.
Proof.
  split.
  - apply (proj1 (diff_size_guard manyLines manyLines)). by vm_compute.
  - apply (proj2 (diff_size_guard textAB textBA)). by vm_compute.
Defined.

(** C3, as the specification words it: the script for ["a","b"] against
    ["b","a"] would be Delete "a", Equal "b", Insert "a".  It is not. *)
Lemma diff_tie_break_not_as_specified :
  readScript (buildUnifiedDiff textAB textBA)
    ≠ [Delete (js "a"); Equal (js "b"); Insert (js "a")]
  ∧ buildUnifiedDiff textAB textBA
    ≠ js "-a" ++ [LF] ++ js " b" ++ [LF] ++ js "+a".
Proof. split; intros H; vm_compute in H; discriminate H. Qed.

(** C3, amended. With the up-preference of line 54 the script for
    ["a","b"] against ["b","a"] is Insert "b", Equal "a", Delete "b". *)
Theorem diff_tie_break :
  readScript (buildUnifiedDiff textAB textBA)
    = [Insert (js "b"); Equal (js "a"); Delete (js "b")]
  ∧ buildUnifiedDiff textAB textBA
    = js "+b" ++ [LF] ++ js " a" ++ [LF] ++ js "-b".
Proof. by vm_compute. Qed.

(** C4, as the specification words it: one operation in each of the
    three empty cases.  The two one-sided cases have two operations. *)
Lemma diff_empty_cases_not_as_specified :
  readScript (buildUnifiedDiff [] (js "x")) ≠ [Insert (js "x")]
  ∧ readScript (buildUnifiedDiff (js "x") []) ≠ [Delete (js "x")].
Proof. split; intros H; vm_compute in H; discriminate H. Qed.

(** C4, amended. The empty text is one empty line, so: two empty texts
    give one Equal of the empty line; the empty text against "x" gives
    Insert "x" then Delete of the empty line; "x" against the empty text
    gives Insert of the empty line then Delete "x". *)
Theorem diff_empty_cases :
  readScript (buildUnifiedDiff [] []) = [Equal []]
  ∧ readScript (buildUnifiedDiff [] (js "x")) = [Insert (js "x"); Delete []]
  ∧ readScript (buildUnifiedDiff (js "x") []) = [Insert []; Delete (js "x")].
Proof. by vm_compute. Qed.

(** ** Trimming *)

Section TrimLemmas.

Let blank (c : N) : Prop := isWhiteSpace c = true.

Lemma whitespaceOnly_Forall s : whitespaceOnly s = true ↔ Forall blank s.
Proof.
  unfold whitespaceOnly, blank. induction s as [|c s IH]; simpl.
  - split; [constructor|done].
  - rewrite andb_true_iff, IH, Forall_cons. done.
Qed.

Lemma truthy_true s : truthy s = true ↔ s ≠ [].
Proof. by destruct s. Qed.

Lemma truthy_false s : truthy s = false ↔ s = [].
Proof. by destruct s. Qed.

Lemma trimStart_decompose s : ∃ ws, s = ws ++ trimStart s ∧ Forall blank ws.
Proof.
  induction s as [|c s (ws & Hs & Hws)]; [by exists []|].
  simpl. destruct (isWhiteSpace c) eqn:Hc.
  - exists (c :: ws). split; [by rewrite Hs at 1|by constructor].
  - by exists [].
Qed.

Lemma trimStart_head s c : head (trimStart s) = Some c → isWhiteSpace c = false.
Proof.
  induction s as [|c' s IH]; [done|].
  simpl. destruct (isWhiteSpace c') eqn:Hc; [done|].
  by intros [= <-].
Qed.

Lemma trimStart_id s c :
  head s = Some c → isWhiteSpace c = false → trimStart s = s.
Proof. destruct s as [|c' s]; [done|]. intros [= ->] Hc. simpl. by rewrite Hc. Qed.

Lemma trimStart_nil s : trimStart s = [] ↔ Forall blank s.
Proof.
  split.
  - intros Hnil. destruct (trimStart_decompose s) as (ws & Hs & Hws).
    rewrite Hnil, app_nil_r in Hs. by subst.
  - induction 1 as [|c s Hc _ IH]; [done|]. simpl. by rewrite Hc.
Qed.

Lemma trimEnd_decompose s : ∃ ws, s = trimEnd s ++ ws ∧ Forall blank ws.
Proof.
  destruct (trimStart_decompose (reverse s)) as (ws & Hs & Hws).
  exists (reverse ws). split; [|by apply Forall_reverse].
  unfold trimEnd. rewrite <- reverse_app, <- Hs. by rewrite reverse_involutive.
Qed.

Lemma trimEnd_last s c : last (trimEnd s) = Some c → isWhiteSpace c = false.
Proof. unfold trimEnd. rewrite last_reverse. apply trimStart_head. Qed.

Lemma trimEnd_id s c :
  last s = Some c → isWhiteSpace c = false → trimEnd s = s.
Proof.
  intros Hlast Hc. unfold trimEnd.
  rewrite (trimStart_id _ c); [apply reverse_involutive| |done].
  by rewrite head_reverse.
Qed.

Lemma trimEnd_nil s : trimEnd s = [] ↔ Forall blank s.
Proof.
  unfold trimEnd. rewrite <- (Forall_reverse _ s), <- trimStart_nil.
  split; intros H.
  - apply (f_equal reverse) in H. by rewrite reverse_involutive in H.
  - by rewrite H.
Qed.

Lemma trim_nil s : trim s = [] ↔ whitespaceOnly s = true.
Proof.
  rewrite whitespaceOnly_Forall. unfold trim. rewrite trimEnd_nil. split.
  - intros Hall. apply trimStart_nil.
    destruct (trimStart s) as [|c u] eqn:Hu; [done|].
    apply Forall_cons in Hall as [Hc _].
    assert (isWhiteSpace c = false) by (apply (trimStart_head s); by rewrite Hu).
    unfold blank in Hc. congruence.
  - intros Hall. apply trimStart_nil in Hall. rewrite Hall. constructor.
Qed.

Lemma trim_tight s : trim s ≠ [] → tight (trim s).
Proof.
  intros Hne. unfold trim in *. split.
  - destruct (trimEnd_decompose (trimStart s)) as (ws & Hs & _).
    destruct (trimEnd (trimStart s)) as [|c u] eqn:Hu; [done|].
    exists c. split; [done|]. apply (trimStart_head s). by rewrite Hs.
  - destruct (last (trimEnd (trimStart s))) as [c|] eqn:Hlast.
    + exists c. split; [done|]. by apply (trimEnd_last (trimStart s)).
    + by apply last_None in Hlast.
Qed.

Lemma tight_trim s : tight s → trim s = s.
Proof.
  intros [(c & Hc & Hcw) (c' & Hc' & Hcw')]. unfold trim.
  rewrite (trimStart_id s c) by done. by apply (trimEnd_id s c').
Qed.

Lemma tight_nonempty s : tight s → s ≠ [].
Proof. by intros [(c & Hc & _) _] ->. Qed.

Lemma join_tight sep chunks :
  chunks ≠ [] → Forall tight chunks → tight (join sep chunks).
Proof.
  induction chunks as [|p rest IH]; [done|]. intros _ Hall.
  apply Forall_cons in Hall as [Hp Hrest].
  destruct rest as [|q rest]; [done|].
  change (join sep (p :: q :: rest)) with (p ++ sep ++ join sep (q :: rest)).
  destruct Hp as [(c & Hc & Hcw) _].
  destruct (IH ltac:(done) Hrest) as [_ (c' & Hc' & Hcw')].
  split.
  - exists c. split; [|done]. by rewrite head_app, Hc.
  - exists c'. split; [|done]. by rewrite app_assoc, last_app, Hc'.
Qed.

End TrimLemmas.

(** ** Normalizing a "responses" body *)

Section ResponseLemmas.

Lemma foldl_pushBlock chunks blocks :
  foldl pushBlock chunks blocks
  = chunks ++ filter (λ chunk, chunk ≠ []) (trim <$> omap textOf blocks).
Proof.
  revert chunks. induction blocks as [|block blocks IH]; intros chunks.
  { simpl. by rewrite app_nil_r. }
  simpl. rewrite IH. unfold pushBlock, textOf.
  destruct (optProp block "text") as [| | | |text| |]; try done.
  simpl. destruct (truthy (trim text)) eqn:Htext.
  - apply truthy_true in Htext. rewrite filter_cons_True by done.
    by rewrite <- app_assoc.
  - apply truthy_false in Htext. rewrite filter_cons_False; [done|].
    by intros ?.
Qed.

Lemma pushItem_blocks chunks item :
  pushItem chunks item = foldl pushBlock chunks (blocksOf item).
Proof.
  unfold pushItem, blocksOf. by destruct (optProp item "content").
Qed.

Lemma foldl_pushItem chunks items :
  foldl pushItem chunks items = chunks ++ trimmedBlocks items.
Proof.
  revert chunks. induction items as [|item items IH]; intros chunks.
  { simpl. by rewrite app_nil_r. }
  simpl. rewrite IH, pushItem_blocks, foldl_pushBlock.
  unfold trimmedBlocks, textBlocks.
  rewrite bind_cons, omap_app, fmap_app, filter_app. by rewrite <- app_assoc.
Qed.

Lemma trimmedBlocks_tight items : Forall tight (trimmedBlocks items).
Proof.
  apply Forall_forall. intros chunk Hin.
  apply list_elem_of_filter in Hin as [Hne Hin].
  apply list_elem_of_fmap in Hin as (t & -> & _). by apply trim_tight.
Qed.

Lemma join_trimmedBlocks_nil items :
  join BLANK_LINE (trimmedBlocks items) = [] ↔ trimmedBlocks items = [].
Proof.
  split; [|by intros ->].
  intros Hnil. destruct (trimmedBlocks items) as [|c cs] eqn:Hcs; [done|].
  pose proof (trimmedBlocks_tight items) as Htight. rewrite Hcs in Htight.
  by destruct (tight_nonempty _ (join_tight BLANK_LINE (c :: cs) ltac:(done) Htight)).
Qed.

Lemma extract_joined items :
  extractTextFromResponseOutput (JArray items)
  = join BLANK_LINE (trimmedBlocks items).
Proof.
  unfold extractTextFromResponseOutput. rewrite foldl_pushItem. simpl.
  destruct (trimmedBlocks items) as [|c cs] eqn:Hcs; [done|].
  apply tight_trim, join_tight; [done|].
  rewrite <- Hcs. apply trimmedBlocks_tight.
Qed.

End ResponseLemmas.

(** C9, as the specification words it, fails on a body with a blank
    nested block: of the three text blocks [["hello"],[" "],["world"]]
    the client collects two and returns "hello\n\nworld", not the three
    blocks joined by blank lines. *)
Lemma responses_not_as_specified :
  let body := responsesBody [] [[js "hello"]; [js " "]; [js "world"]] in
  textBlocks (outputItems body) = [js "hello"; js " "; js "world"]
  ∧ improveWithResponses (mkResponse 200 body)
    = Returned (js "hello" ++ BLANK_LINE ++ js "world")
  ∧ improveWithResponses (mkResponse 200 body)
    ≠ Returned (normalizedAsSpecified body).
Proof.
  cbv zeta. split; [by vm_compute|]. split; [by vm_compute|].
  intros H. vm_compute in H. discriminate H.
Qed.

(** C9, amended. On a success status the client returns the trimmed
    top-level text when that is non-empty; otherwise it collects, over
    all output items in list order, every nested text block that is
    non-empty after trimming, trimmed, and returns them joined by a blank
    line, or fails with "AI API returned no text." when there is none.
    The nested blocks [["hello"],["world"]] under an empty top-level text
    give "hello\n\nworld". *)
Theorem responses_normalization :
  (∀ r s,
     (status r < 400)%Z → topLevelText (json r) = Some s →
     improveWithResponses r =
       if truthy (trim s) then Returned (trim s)
       else if bool_decide (trimmedBlocks (outputItems (json r)) = [])
            then AI_NO_TEXT
            else Returned (join BLANK_LINE (trimmedBlocks (outputItems (json r)))))
  ∧ improveWithResponses
      (mkResponse 200 (responsesBody [] [[js "hello"]; [js "world"]]))
    = Returned (js "hello" ++ BLANK_LINE ++ js "world").
Proof.
  split; [|by vm_compute].
  intros r s Hstatus Htop. unfold improveWithResponses.
  rewrite (proj2 (Z.leb_gt _ _)) by done. rewrite Htop. cbv zeta.
  destruct (truthy (trim s)); [done|].
  assert (Hout : extractTextFromResponseOutput (optProp (json r) "output")
                 = join BLANK_LINE (trimmedBlocks (outputItems (json r)))).
  { unfold outputItems.
    destruct (optProp (json r) "output") as [| | | | |items|]; try done.
    apply extract_joined. }
  rewrite Hout. case_bool_decide as Hnil.
  - by rewrite Hnil.
  - destruct (truthy _) eqn:Htruthy; [done|].
    apply truthy_false, join_trimmedBlocks_nil in Htruthy. done.
Qed.

Lemma responses_normalization_witness :
  improveWithResponses
    (mkResponse 200 (responsesBody (js " ") [[js " a "; js "  "]; []; [js "b"]]))
  = Returned (js "a" ++ BLANK_LINE ++ js "b").
Proof.
  rewrite (proj1 responses_normalization _ (js " ")); by vm_compute.
Defined.

(** ** The segments of a normalized result *)

Section SegmentLemmas.





End SegmentLemmas.




(** ** The process invoker *)

Section SpawnLemmas.

Variable timeoutMs : Z.

Lemma stdoutOf_snoc events ev :
  stdoutOf (events ++ [ev])
  = stdoutOf events ++ match ev with StdoutData c => c | _ => [] end.
Proof.
  unfold stdoutOf. rewrite omap_app, join_app.
  destruct ev; simpl; by rewrite ?app_nil_r.
Qed.

Lemma stderrOf_snoc events ev :
  stderrOf (events ++ [ev])
  = stderrOf events ++ match ev with StderrData c => c | _ => [] end.
Proof.
  unfold stderrOf. rewrite omap_app, join_app.
  destruct ev; simpl; by rewrite ?app_nil_r.
Qed.

(** While only data arrives, the child is unsettled and its buffers hold
    the chunks in arrival order. *)
Lemma runChild_data events :
  forallb isData events = true →
  runChild timeoutMs events
  = {| stdout := stdoutOf events; stderr := stderrOf events;
       settled := false; settlements := []; killed := [];
       timerCleared := false |}.
Proof.
  induction events as [|ev events IH] using rev_ind; [done|].
  rewrite forallb_app, andb_true_iff. intros [Hdata Hev].
  unfold runChild in *. rewrite foldl_snoc, IH by done.
  rewrite stdoutOf_snoc, stderrOf_snoc.
  destruct ev; simpl in *; try done; by rewrite app_nil_r.
Qed.

(** The guard: a settled child ignores [close] and the timer. *)
Lemma settled_ignores c :
  settled c = true →
  (∀ code, onClose code c = c) ∧ onTimeout timeoutMs c = c.
Proof. intros Hc. unfold onClose, onTimeout. by rewrite Hc. Qed.

Lemma settled_stable c events :
  settled c = true →
  settled (foldl (handle timeoutMs) c events) = true
  ∧ settlements (foldl (handle timeoutMs) c events) = settlements c
  ∧ killed (foldl (handle timeoutMs) c events) = killed c.
Proof.
  revert c. induction events as [|ev events IH]; intros c Hc; [done|].
  simpl. destruct (settled_ignores c Hc) as [Hclose Htimer].
  destruct ev as [chunk|chunk|code|]; simpl;
    rewrite ?Hclose, ?Htimer; try by apply IH.
  - destruct (IH (onStdout chunk c)) as (? & ? & ?); done.
  - destruct (IH (onStderr chunk c)) as (? & ? & ?); done.
Qed.

(** [settled] is set exactly when [resolve] or [reject] has been called,
    and that happened at most once. *)
Lemma settled_iff_called events :
  let c := runChild timeoutMs events in
  (settled c = true ∧ length (settlements c) = 1)
  ∨ (settled c = false ∧ settlements c = []).
Proof.
  induction events as [|ev events IH] using rev_ind; [by right|].
  cbv zeta in *. unfold runChild in *. rewrite foldl_snoc.
  destruct IH as [[Hset Hlen]|[Hset Hnil]].
  - left. destruct (settled_ignores _ Hset) as [Hclose Htimer].
    destruct ev; simpl; rewrite ?Hclose, ?Htimer; done.
  - destruct ev; simpl; unfold onClose, onTimeout; rewrite ?Hset; simpl;
      rewrite ?Hnil; auto.
Qed.

Lemma settling_event_settles events ev :
  isData ev = false → settled (runChild timeoutMs (events ++ [ev])) = true.
Proof.
  intros Hev. unfold runChild. rewrite foldl_snoc.
  generalize (foldl (handle timeoutMs) spawned events). intros c.
  destruct ev; try done; simpl; unfold onClose, onTimeout;
    by destruct (settled c) eqn:Hc.
Qed.

Lemma later_events_ignored events ev rest :
  isData ev = false →
  settlements (runChild timeoutMs (events ++ ev :: rest))
  = settlements (runChild timeoutMs (events ++ [ev])).
Proof.
  intros Hev.
  replace (events ++ ev :: rest) with ((events ++ [ev]) ++ rest)
    by by rewrite <- app_assoc.
  unfold runChild at 1. rewrite foldl_app.
  by apply settled_stable, settling_event_settles.
Qed.

(** The timer fires before the child closes: the call is rejected with
    the timeout message and the child is sent SIGTERM, whatever follows. *)
Lemma timeout_first events rest :
  forallb isData events = true →
  let c := runChild timeoutMs (events ++ TimeoutFired :: rest) in
  settlements c
    = [Rejected (js "Codex CLI timed out after " ++ stringOfZ timeoutMs
               ++ js "ms.")]
  ∧ killed c = [js "SIGTERM"].
Proof.
  intros Hdata c. subst c.
  replace (events ++ TimeoutFired :: rest)
    with ((events ++ [TimeoutFired]) ++ rest) by by rewrite <- app_assoc.
  unfold runChild. rewrite foldl_app.
  destruct (settled_stable (foldl (handle timeoutMs) spawned (events ++ [TimeoutFired])) rest)
    as (_ & -> & ->).
  { by apply settling_event_settles. }
  rewrite foldl_snoc. fold (runChild timeoutMs events).
  by rewrite runChild_data.
Qed.

End SpawnLemmas.

(** C6. In every run of [spawnCommand] the promise is settled at most
    once.  After a [close] or a timer event has been handled, a later
    [close] or timer event changes nothing, and whatever follows leaves
    the promise as that event left it. *)
Theorem spawn_settles_once (rt : Runtime) (timeoutMs : Z)
    (events rest : list ChildEvent) (ev : ChildEvent) :
  length (settlements (runChild timeoutMs events)) ≤ 1
  ∧ (isData ev = false →
     let c := runChild timeoutMs (events ++ [ev]) in
     (∀ code, handle timeoutMs c (Close code) = c)
     ∧ handle timeoutMs c TimeoutFired = c
     ∧ settlements (runChild timeoutMs (events ++ ev :: rest)) = settlements c
     ∧ spawnCommand rt timeoutMs (events ++ ev :: rest)
       = spawnCommand rt timeoutMs (events ++ [ev])).
Proof.
  split.
  - destruct (settled_iff_called timeoutMs events) as [[_ ->]|[_ ->]];
      simpl; lia.
  - intros Hev c.
    pose proof (settling_event_settles timeoutMs events ev Hev) as Hset.
    destruct (settled_ignores timeoutMs c Hset) as [Hclose Htimer].
    pose proof (later_events_ignored timeoutMs events ev rest Hev) as Hrest.
    split; [done|]. split; [done|]. split; [done|].
    unfold spawnCommand, promiseOf. by rewrite Hrest.
Qed.

(** A timeout, then a late [close]: the timeout rejection stands.  A
    [close], then a late timer: the exit outcome stands. *)
Lemma spawn_settles_once_witness :
  spawnCommand desktop 50 [StdoutData (js "ok"); TimeoutFired; Close (Some 0%Z)]
    = Some (Rejected (js "Codex CLI timed out after 50ms."))
  ∧ spawnCommand desktop 50 [StdoutData (js "ok"); Close (Some 0%Z); TimeoutFired]
    = Some (Resolved (js "ok")).
Proof.
  split.
  - etrans.
    + apply (proj2 (spawn_settles_once desktop 50 [StdoutData (js "ok")]
                      [Close (Some 0%Z)] TimeoutFired) eq_refl).
    + by vm_compute.
  - etrans.
    + apply (proj2 (spawn_settles_once desktop 50 [StdoutData (js "ok")]
                      [TimeoutFired] (Close (Some 0%Z))) eq_refl).
    + by vm_compute.
Defined.

(** C7, as the specification words it, fails when standard error holds
    white space only, here one line feed: the text is non-empty, yet the
    generic message is used. *)
Lemma spawn_exit_not_as_specified :
  let events := [StderrData [LF]] in
  spawnCommand desktop 60000 (events ++ [Close (Some 2%Z)])
    = Some (Rejected (js "Codex CLI exited with code 2."))
  ∧ spawnCommand desktop 60000 (events ++ [Close (Some 2%Z)])
    ≠ Some (exitAsSpecified (Some 2%Z) (stdoutOf events) (stderrOf events)).
Proof.
  cbv zeta. split; [by vm_compute|].
  intros H. vm_compute in H. discriminate H.
Qed.

(** C7, amended. When the child closes before the timer fires, exit code
    0 resolves with the trimmed standard output; any other code, and
    [null], rejects with the trimmed standard error when that trimmed
    text is non-empty, and with "Codex CLI exited with code N." when
    standard error is empty or white space only. *)
Theorem spawn_exit_mapping (timeoutMs : Z) (events rest : list ChildEvent)
    (code : option Z) :
  forallb isData events = true →
  spawnCommand desktop timeoutMs (events ++ Close code :: rest) =
    Some (if bool_decide (code = Some 0%Z) then Resolved (trim (stdoutOf events))
          else if truthy (trim (stderrOf events))
               then Rejected (trim (stderrOf events))
               else Rejected (exitMessage code)).
Proof.
  intros Hdata.
  pose proof (later_events_ignored timeoutMs events (Close code) rest eq_refl)
    as Hrest.
  unfold spawnCommand, promiseOf; simpl. rewrite Hrest.
  unfold runChild. rewrite foldl_snoc.
  fold (runChild timeoutMs events). rewrite runChild_data by done.
  simpl. unfold onClose; simpl.
  case_bool_decide; [done|]. by destruct (truthy _).
Qed.

Lemma spawn_exit_mapping_witness :
  spawnCommand desktop 60000
    [StdoutData (js "o"); StdoutData (js "k "); Close (Some 0%Z)]
    = Some (Resolved (js "ok"))
  ∧ spawnCommand desktop 60000
      [StdoutData (js "partial"); StderrData (js "bad "); Close (Some 2%Z)]
    = Some (Rejected (js "bad"))
  ∧ spawnCommand desktop 60000 [Close None; TimeoutFired]
    = Some (Rejected (js "Codex CLI exited with code null.")).
Proof.
  split; [|split].
  - etrans.
    + apply (spawn_exit_mapping 60000
               [StdoutData (js "o"); StdoutData (js "k ")] [] (Some 0%Z)).
      by vm_compute.
    + by vm_compute.
  - etrans.
    + apply (spawn_exit_mapping 60000
               [StdoutData (js "partial"); StderrData (js "bad ")] [] (Some 2%Z)).
      by vm_compute.
    + by vm_compute.
  - etrans.
    + apply (spawn_exit_mapping 60000 [] [TimeoutFired] None). by vm_compute.
    + by vm_compute.
Defined.

(** ** The Codex CLI argument vector *)

(** C5 does not hold of [improveWithCodexCli]: whatever thread mode and
    thread id the caller passes, it builds the plain
    [exec --skip-git-repo-check -m model prompt] vector, so the vector
    for a resume mode is the vector for mode new. *)
Theorem codex_args_ignore_thread (settings : Settings)
    (text systemPrompt : jsstring)
    (mode : option CodexThreadMode) (threadId : option jsstring) :
  codexArgs settings (mkInput text systemPrompt mode threadId)
  = [ js "exec"; js "--skip-git-repo-check"; js "-m"; model settings;
      codexPrompt (mkInput text systemPrompt (Some ThreadNew) None) ].
Proof. reflexivity. Qed.

Import Writing.

(** * Further properties of the writing module *)

(** ** Lines and line feeds *)

Section LineLemmas.

Lemma join_cons_head sep (c : N) (l : jsstring) (ls : list jsstring) :
  join sep ((c :: l) :: ls) = c :: join sep (l :: ls).
Proof. by destruct ls. Qed.

Lemma startsWithLF_toCRLF text : startsWithLF (toCRLF text) = false.
Proof.
  destruct text as [|c rest]; [done|].
  simpl. destruct (c =? LF)%N eqn:Hc; [done|]. simpl. by rewrite Hc.
Qed.

Lemma splitLines_snoc_line (l rest : jsstring) :
  LF ∉ l → last l ≠ Some CR →
  splitLines (l ++ LF :: rest) = l :: splitLines rest.
Proof.
  induction l as [|c l IH]; intros Hlf Hcr.
  { reflexivity. }
  apply not_elem_of_cons in Hlf as [Hc Hl].
  simpl. destruct (N.eqb_spec c LF) as [->|_]; [done|].
  assert (Hpair : (c =? CR)%N && startsWithLF (l ++ LF :: rest) = false).
  { destruct (N.eqb_spec c CR) as [->|_]; [|done].
    destruct l as [|c' l]; [done|].
    simpl. apply not_elem_of_cons in Hl as [Hc' _].
    by destruct (N.eqb_spec c' LF). }
  rewrite Hpair, IH; [done|done|].
  destruct l as [|c' l]; [done|]. by rewrite last_cons_cons in Hcr.
Qed.

Lemma splitLines_one_line (l : jsstring) : LF ∉ l → splitLines l = [l].
Proof.
  induction l as [|c l IH]; intros Hlf; [done|].
  apply not_elem_of_cons in Hlf as [Hc Hl].
  simpl. destruct (N.eqb_spec c LF) as [->|_]; [done|].
  assert (Hpair : (c =? CR)%N && startsWithLF l = false).
  { destruct (c =? CR)%N; [|done]. destruct l as [|c' l]; [done|].
    simpl. apply not_elem_of_cons in Hl as [Hc' _].
    by destruct (N.eqb_spec c' LF). }
  by rewrite Hpair, IH.
Qed.

End LineLemmas.

(** X1. A text has one line more than it has line feeds, so no text
    splits into zero lines; and a text that ends in a line feed has an
    empty last line. *)
Theorem splitLines_count (text : jsstring) :
  length (splitLines text) = S (countLF text)
  ∧ last (splitLines (text ++ [LF])) = Some [].
Proof.
  assert (Hcount : ∀ t, length (splitLines t) = S (countLF t)).
  { unfold countLF. induction t as [|c rest IH]; [done|].
    simpl. destruct (N.eqb_spec c LF) as [->|Hc].
    - rewrite filter_cons_True by done. simpl. by rewrite IH.
    - rewrite filter_cons_False by done.
      destruct ((c =? CR)%N && startsWithLF rest); [done|].
      by destruct (splitLines rest). }
  split; [apply Hcount|].
  induction text as [|c rest IH]; [done|].
  pose proof (Hcount (rest ++ [LF])) as Hlen.
  unfold countLF in Hlen. rewrite filter_app, length_app in Hlen.
  rewrite filter_cons_True in Hlen by done. simpl in Hlen.
  change ((c :: rest) ++ [LF]) with (c :: (rest ++ [LF])).
  cbn [splitLines].
  destruct (c =? LF)%N.
  { destruct (splitLines (rest ++ [LF])); [done|]. by rewrite last_cons_cons. }
  destruct ((c =? CR)%N && startsWithLF (rest ++ [LF])); [done|].
  destruct (splitLines (rest ++ [LF])) as [|l [|l' ls]]; simpl in Hlen; [lia|lia|].
  by rewrite last_cons_cons in *.
Qed.

Lemma join_splitLines_crlfFree (text : jsstring) :
  crlfFree text = true → join [LF] (splitLines text) = text.
Proof.
  induction text as [|c rest IH]; [done|].
  cbn [crlfFree splitLines]. intros [Hpair Hrest]%andb_true_iff.
  apply negb_true_iff in Hpair. rewrite Hpair.
  pose proof (splitLines_nonempty rest) as Hne.
  destruct (N.eqb_spec c LF) as [->|_].
  - destruct (splitLines rest) as [|l ls] eqn:Hlines; [done|].
    change (join [LF] ([] :: l :: ls)) with (LF :: join [LF] (l :: ls)).
    by rewrite IH.
  - destruct (splitLines rest) as [|l ls] eqn:Hlines; [done|].
    by rewrite join_cons_head, IH.
Qed.


(** X2. Joining the lines of a text with line feeds gives the text back,
    provided no carriage return stands directly before a line feed (such
    a carriage return is part of the separator and is dropped). *)
Theorem join_splitLines (text : jsstring) :
  crlfFree text = true → join [LF] (splitLines text) = text.
Proof. apply join_splitLines_crlfFree. Qed.

Lemma join_splitLines_witness :
  join [LF] (splitLines (js "a" ++ [LF; CR] ++ js "b" ++ [LF]))
  = js "a" ++ [LF; CR] ++ js "b" ++ [LF].
Proof. apply join_splitLines. by vm_compute. Defined.

(** X3. Conversely, a non-empty list of lines that hold no line feed and
    do not end in a carriage return is what its line-feed join splits
    into. *)
Theorem splitLines_join (lines : list jsstring) :
  lines ≠ [] →
  Forall (λ l, (LF ∉ l) ∧ last l ≠ Some CR) lines →
  splitLines (join [LF] lines) = lines.
Proof.
  induction lines as [|l ls IH]; [done|].
  intros _ Hall. apply Forall_cons in Hall as [[Hlf Hcr] Hls].
  destruct ls as [|l' ls].
  - simpl. by apply splitLines_one_line.
  - change (join [LF] (l :: l' :: ls)) with (l ++ LF :: join [LF] (l' :: ls)).
    rewrite splitLines_snoc_line by done. f_equal. by apply IH.
Qed.

Lemma splitLines_join_witness :
  splitLines (join [LF] [js "a"; []; js "b c"]) = [js "a"; []; js "b c"].
Proof.
  apply splitLines_join; [done|].
  apply (bool_decide_unpack _). by vm_compute.
Defined.

(** X4. Line endings do not matter to the diff: writing every line feed
    of both texts as carriage return, line feed leaves the lines, and so
    the diff, unchanged. *)
Theorem diff_ignores_crlf (A B : jsstring) :
  crlfFree A = true → crlfFree B = true →
  splitLines (toCRLF A) = splitLines A
  ∧ buildUnifiedDiff (toCRLF A) (toCRLF B) = buildUnifiedDiff A B.
Proof.
  assert (Hlines : ∀ t, crlfFree t = true → splitLines (toCRLF t) = splitLines t).
  { induction t as [|c rest IH]; [done|].
    cbn [crlfFree toCRLF]. intros [Hpair Hrest]%andb_true_iff.
    apply negb_true_iff in Hpair.
    destruct (N.eqb_spec c LF) as [->|Hc].
    - change (splitLines (CR :: LF :: toCRLF rest))
        with ([] :: splitLines (toCRLF rest)).
      cbn [splitLines]. rewrite N.eqb_refl. by rewrite IH.
    - cbn [splitLines]. rewrite (proj2 (N.eqb_neq c LF) Hc).
      rewrite Hpair, startsWithLF_toCRLF, andb_false_r. by rewrite IH. }
  intros HA HB. split; [by apply Hlines|].
  unfold buildUnifiedDiff. by rewrite !Hlines.
Qed.

Lemma diff_ignores_crlf_witness :
  buildUnifiedDiff (js "a" ++ [CR; LF] ++ js "b") (js "b" ++ [CR; LF] ++ js "a")
  = buildUnifiedDiff textAB textBA.
Proof. apply (diff_ignores_crlf textAB textBA); by vm_compute. Defined.

(** ** More on the rendered script *)

Section ScriptLemmas.

Lemma only_equal ops :
  insertOf ops = [] → deleteOf ops = [] → ops = Equal <$> originalOf ops.
Proof.
  induction ops as [|op ops IH]; [done|].
  destruct op as [l|l|l]; cbn; intros Hins Hdel; try done.
  f_equal. by apply IH.
Qed.

Lemma buildUnifiedDiff_lines (A B : jsstring) :
  (cellCount A B ≤ MAX_CELLS)%Z →
  ∃ ops,
    splitLF (buildUnifiedDiff A B) = render <$> ops
    ∧ readScript (buildUnifiedDiff A B) = ops
    ∧ originalOf ops = splitLines A
    ∧ updatedOf ops = splitLines B
    ∧ length (equalOf ops)
      = lcsTable (splitLines A) (splitLines B)
          (length (splitLines A)) (length (splitLines B)).
Proof.
  intros Hcells.
  destruct (buildUnifiedDiff_script A B Hcells) as (ops & Hout & Hread & HA & HB & Heq).
  exists ops. split; [|done].
  rewrite Hout. apply splitLF_join.
  - destruct ops; [|done]. by destruct (splitLines_nonempty A).
  - apply rendered_no_LF; [rewrite HA|rewrite HB]; apply splitLines_no_LF.
Qed.

(** The script of two texts with the same lines holds Equal operations
    only. *)
Lemma same_lines_script (A B : jsstring) :
  (cellCount A B ≤ MAX_CELLS)%Z → splitLines A = splitLines B →
  readScript (buildUnifiedDiff A B) = Equal <$> splitLines A
  ∧ splitLF (buildUnifiedDiff A B) = (SPACE ::.) <$> splitLines A.
Proof.
  intros Hcells Hsame.
  destruct (buildUnifiedDiff_lines A B Hcells) as (ops & Hout & Hread & HA & HB & Heq).
  rewrite Hout, Hread.
  pose proof (script_lengths ops) as [Hn Hm]. rewrite HA in Hn. rewrite HB in Hm.
  assert (length (splitLines A) ≤ length (equalOf ops)) as Hfull.
  { rewrite Heq. apply lcsTable_bounds_common; [done|done| |];
      rewrite firstn_all; [done|by rewrite Hsame]. }
  rewrite <- Hsame in Hm.
  assert (ops = Equal <$> splitLines A) as ->.
  { rewrite <- HA. apply only_equal; apply length_zero_iff_nil; lia. }
  split; [done|]. by rewrite <- list_fmap_compose.
Qed.

End ScriptLemmas.

(** X5. Below the size guard the diff of a text with itself changes
    nothing: the script is one Equal operation per line, rendered as each
    line behind a space. *)
Theorem diff_identity (A : jsstring) :
  (cellCount A A ≤ MAX_CELLS)%Z →
  readScript (buildUnifiedDiff A A) = Equal <$> splitLines A
  ∧ buildUnifiedDiff A A = join [LF] ((SPACE ::.) <$> splitLines A).
Proof.
  intros Hcells.
  destruct (same_lines_script A A Hcells eq_refl) as [Hread Hlines].
  split; [done|].
  destruct (buildUnifiedDiff_script A A Hcells) as (ops & Hout & Hops & _).
  rewrite Hout. f_equal. rewrite Hops in Hread. rewrite Hread.
  by rewrite <- list_fmap_compose.
Qed.

Lemma diff_identity_witness :
  buildUnifiedDiff textAB textAB = js " a" ++ [LF] ++ js " b".
Proof. apply (diff_identity textAB). by vm_compute. Defined.

(** X6. Below the size guard the script has at least as many
    operations as the longer text has lines, and at most as many as both
    texts have together. *)
Theorem diff_operation_count (A B : jsstring) :
  (cellCount A B ≤ MAX_CELLS)%Z →
  let ops := readScript (buildUnifiedDiff A B) in
  length (splitLines A) `max` length (splitLines B) ≤ length ops
  ∧ length ops ≤ length (splitLines A) + length (splitLines B).
Proof.
  intros Hcells ops. subst ops.
  destruct (buildUnifiedDiff_script A B Hcells) as (ops & _ & -> & HA & HB & _).
  pose proof (script_lengths ops) as [Hn Hm]. rewrite HA in Hn. rewrite HB in Hm.
  assert (length ops
          = length (equalOf ops) + length (insertOf ops) + length (deleteOf ops))
    as ->; [|lia].
  clear. induction ops as [|op ops IH]; [done|].
  change (op :: ops) with ([op] ++ ops).
  unfold equalOf, insertOf, deleteOf in *.
  rewrite !omap_app, !length_app, IH. destruct op; simpl; lia.
Qed.

Lemma diff_operation_count_witness :
  2 ≤ length (readScript (buildUnifiedDiff textAB textBA))
  ∧ length (readScript (buildUnifiedDiff textAB textBA)) ≤ 4.
Proof. apply (diff_operation_count textAB textBA). by vm_compute. Defined.

(** X7. Below the size guard the script determines the updated text: its
    Equal and Insert lines, joined with line feeds, are the updated text,
    provided that text has no carriage return directly before a line
    feed. *)
Theorem diff_recovers_updated (A B : jsstring) :
  (cellCount A B ≤ MAX_CELLS)%Z → crlfFree B = true →
  join [LF] (updatedOf (readScript (buildUnifiedDiff A B))) = B.
Proof.
  intros Hcells HB.
  destruct (buildUnifiedDiff_script A B Hcells) as (ops & _ & -> & _ & -> & _).
  by apply join_splitLines_crlfFree.
Qed.

Lemma diff_recovers_updated_witness :
  join [LF] (updatedOf (readScript (buildUnifiedDiff textAB textBA))) = textBA.
Proof. apply diff_recovers_updated; by vm_compute. Defined.

(** ** The diff preview *)

(** X8. Below the size guard the preview shows one line per operation,
    insertions green, deletions red and unchanged lines muted; and it is
    muted throughout exactly when the two texts have the same lines. *)
Theorem preview_colours (A B : jsstring) :
  (cellCount A B ≤ MAX_CELLS)%Z →
  renderDiffPreview (buildUnifiedDiff A B)
    = (λ op, {| color := opColor op; shown := render op |})
        <$> readScript (buildUnifiedDiff A B)
  ∧ (Forall (λ line, color line = Muted) (renderDiffPreview (buildUnifiedDiff A B))
     ↔ splitLines A = splitLines B).
Proof.
  intros Hcells.
  destruct (buildUnifiedDiff_lines A B Hcells) as (ops & Hout & Hread & HA & HB & _).
  assert (Hpreview : renderDiffPreview (buildUnifiedDiff A B)
            = (λ op, {| color := opColor op; shown := render op |}) <$> ops).
  { unfold renderDiffPreview. rewrite Hout, <- list_fmap_compose.
    apply list_fmap_ext. intros _ op _. by destruct op. }
  rewrite Hread. split; [done|].
  rewrite Hpreview, Forall_fmap. split.
  - intros Hmuted. rewrite <- HA, <- HB.
    clear -Hmuted. induction Hmuted as [|op ops Hop _ IH]; [done|].
    destruct op; try done.
    change (originalOf (Equal line :: ops)) with (line :: originalOf ops).
    change (updatedOf (Equal line :: ops)) with (line :: updatedOf ops).
    by rewrite IH.
  - intros Hsame.
    destruct (same_lines_script A B Hcells Hsame) as [Hops _].
    rewrite Hread in Hops. rewrite Hops.
    apply Forall_fmap, Forall_forall. done.
Qed.

Lemma preview_colours_witness :
  color <$> renderDiffPreview (buildUnifiedDiff textAB textBA) = [Green; Muted; Red]
  ∧ ¬ Forall (λ line, color line = Muted)
        (renderDiffPreview (buildUnifiedDiff textAB textBA)).
Proof.
  destruct (preview_colours textAB textBA ltac:(by vm_compute)) as [Hlines Hiff].
  split; [by rewrite Hlines|].
  intros Hmuted%Hiff. by vm_compute in Hmuted.
Defined.

(** ** Front matter *)

Section FrontMatterLemmas.

Lemma startsWith_true p s : startsWith p s = true → s = p ++ drop (length p) s.
Proof.
  unfold startsWith. intros Hp%bool_decide_eq_true.
  by rewrite <- Hp at 1; rewrite take_drop.
Qed.

Lemma lineBreakAt_Some s j :
  lineBreakAt s = Some j →
  ∃ lb r, s = lb ++ r ∧ isLineBreak lb ∧ j = length lb.
Proof.
  destruct s as [|c rest]; [done|]. unfold lineBreakAt.
  destruct (N.eqb_spec c CR) as [->|_]; simpl.
  - destruct rest as [|c' rest]; [done|]. simpl.
    destruct (N.eqb_spec c' LF) as [->|_]; [|done].
    intros [= <-]. exists [CR; LF], rest. split; [done|]. split; [by right|done].
  - destruct (N.eqb_spec c LF) as [->|_]; [|done].
    intros [= <-]. exists [LF], rest. split; [done|]. split; [by left|done].
Qed.

Lemma fenceEndAt_Some s e :
  fenceEndAt s = Some e →
  (e = 0 ∧ s = []) ∨ ∃ lb r, s = lb ++ r ∧ isLineBreak lb ∧ e = length lb.
Proof.
  unfold fenceEndAt. destruct (lineBreakAt s) as [j|] eqn:Hlb.
  - intros [= <-]. right. by apply lineBreakAt_Some.
  - destruct s; [|done]. intros [= <-]. by left.
Qed.

Lemma closingFenceAt_Some s k :
  closingFenceAt s = Some k →
  ∃ lb e r, s = lb ++ FENCE ++ e ++ r
            ∧ k = length lb + 3 + length e
            ∧ isLineBreak lb
            ∧ (isLineBreak e ∨ (e = [] ∧ r = [])).
Proof.
  unfold closingFenceAt.
  destruct (lineBreakAt s) as [j|] eqn:Hlb; [|done].
  apply lineBreakAt_Some in Hlb as (lb & r & -> & Hlb & ->).
  rewrite drop_app_length.
  destruct (startsWith FENCE r) eqn:Hfence; [|done].
  apply startsWith_true in Hfence. set (r' := drop (length FENCE) r) in *.
  replace (drop (length lb + 3) (lb ++ r)) with r'.
  2:{ rewrite Hfence, drop_app_add'; [|done]. by rewrite drop_app_length'. }
  destruct (fenceEndAt r') as [e|] eqn:Hend; [|done].
  intros [= <-]. rewrite Hfence.
  apply fenceEndAt_Some in Hend as [[-> Hnil]|(e' & r'' & Hr' & He' & ->)].
  - exists lb, [], []. rewrite Hnil. split; [done|]. split; [done|]. split; [done|].
    by right.
  - exists lb, e', r''. rewrite Hr'. split; [done|]. split; [done|]. split; [done|].
    by left.
Qed.

Lemma closingFenceAt_bounds s k :
  closingFenceAt s = Some k → 4 ≤ k ≤ length s.
Proof.
  intros (lb & e & r & -> & -> & Hlb & He)%closingFenceAt_Some.
  rewrite !length_app. change (length FENCE) with 3.
  destruct Hlb as [->| ->]; simpl; lia.
Qed.

(** The lazy star stops at the first position where the closing fence
    matches. *)
Lemma lazyClose_Some s k :
  lazyClose s = Some k →
  ∃ j m, k = j + m ∧ j ≤ length s
         ∧ closingFenceAt (drop j s) = Some m
         ∧ ∀ i, i < j → closingFenceAt (drop i s) = None.
Proof.
  revert k. induction s as [|c rest IH]; intros k.
  - simpl. destruct (closingFenceAt []) eqn:Hclose; [|done]. done.
  - cbn [lazyClose]. destruct (closingFenceAt (c :: rest)) as [m|] eqn:Hclose.
    + intros [= <-]. exists 0, m. split; [done|]. split; [simpl; lia|].
      split; [done|]. intros i Hi. lia.
    + destruct (lazyClose rest) as [k'|] eqn:Hrest; [|done].
      intros [= <-]. destruct (IH k' eq_refl) as (j & m & -> & Hj & Hm & Hfirst).
      exists (S j), m. split; [done|]. split; [simpl; lia|]. split; [done|].
      intros [|i] Hi; [done|]. apply Hfirst. lia.
Qed.

Lemma lazyClose_bounds s k : lazyClose s = Some k → 4 ≤ k ≤ length s.
Proof.
  intros (j & m & -> & Hj & Hm%closingFenceAt_bounds & _)%lazyClose_Some.
  rewrite length_drop in Hm. lia.
Qed.

End FrontMatterLemmas.

Section FrontMatterStability.

Lemma FENCE_units : FENCE = [45; 45; 45]%N.
Proof. reflexivity. Qed.

(** Whether a closing fence matches at the head of a text is decided
    inside any prefix of four or more code units that ends in a line
    feed. *)
Lemma closingFenceAt_window u x y :
  4 ≤ length u → last u = Some LF →
  closingFenceAt (u ++ x) = closingFenceAt (u ++ y).
Proof.
  intros Hlen Hlast.
  assert (Hcases : (∃ a b c, u = [a; b; c; LF])
                   ∨ (∃ a b c d, u = [a; b; c; d; LF])
                   ∨ (∃ a b c d e, u = [a; b; c; d; e; LF])
                   ∨ (∃ a b c d e f g v, u = a :: b :: c :: d :: e :: f :: g :: v)).
  { destruct u as [|a [|b [|c [|d [|e [|f [|g v]]]]]]]; simpl in Hlen; try lia.
    - left. injection Hlast as ->. eauto.
    - right; left. injection Hlast as ->. by eauto 6.
    - right; right; left. injection Hlast as ->. by eauto 7.
    - right; right; right. by eauto 10. }
  unfold closingFenceAt, fenceEndAt, lineBreakAt, startsWith.
  rewrite FENCE_units.
  destruct Hcases
    as [(a&b&c&->)|[(a&b&c&d&->)|[(a&b&c&d&e&->)|(a&b&c&d&e&f&g&v&->)]]];
    cbn;
    repeat (match goal with
            | |- context [(?p =? ?q)%N] =>
                destruct (N.eqb_spec p q); subst; cbn
            | |- context [bool_decide ?P] =>
                destruct (bool_decide_reflect P); simplify_eq; cbn
            end); try done.
Qed.

Lemma lazyClose_stable s k x :
  lazyClose s = Some k → last (take k s) = Some LF →
  lazyClose (take k s ++ x) = Some k.
Proof.
  revert k. induction s as [|c rest IH]; intros k.
  { simpl. by destruct (closingFenceAt []). }
  cbn [lazyClose]. destruct (closingFenceAt (c :: rest)) as [m|] eqn:Hclose.
  - intros [= <-] Hlast.
    pose proof (closingFenceAt_bounds _ _ Hclose) as Hm.
    assert (closingFenceAt (take m (c :: rest) ++ x) = Some m) as Hsame.
    { etrans; [apply (closingFenceAt_window _ x (drop m (c :: rest)))|].
      - rewrite length_take; lia.
      - done.
      - by rewrite take_drop. }
    destruct (take m (c :: rest) ++ x) eqn:Hshape; cbn [lazyClose];
      by rewrite Hsame.
  - destruct (lazyClose rest) as [k'|] eqn:Hrest; [|done].
    intros [= <-] Hlast.
    pose proof (lazyClose_bounds _ _ Hrest) as Hk'.
    assert (Hlast' : last (take k' rest) = Some LF).
    { cbn [take] in Hlast. destruct (take k' rest) as [|c' t] eqn:Ht.
      - apply (f_equal length) in Ht. rewrite length_take in Ht. simpl in Ht. lia.
      - by rewrite last_cons_cons in Hlast. }
    change (take (S k') (c :: rest) ++ x) with (c :: (take k' rest ++ x)).
    cbn [lazyClose].
    assert (closingFenceAt (c :: (take k' rest ++ x)) = None) as ->.
    { etrans; [apply (closingFenceAt_window (c :: take k' rest) x (drop k' rest))|].
      - simpl; rewrite length_take; lia.
      - destruct (take k' rest); [done|]. by rewrite last_cons_cons.
      - simpl. by rewrite take_drop. }
    by rewrite (IH k' eq_refl Hlast').
Qed.

End FrontMatterStability.

Lemma splitFrontMatter_decompose (text : jsstring) :
  let r := splitFrontMatter text in
  frontMatter r ++ body r = text
  ∧ (frontMatter r = []
     ∨ ∃ opening inner closing e,
         frontMatter r = FENCE ++ opening ++ inner ++ closing ++ FENCE ++ e
         ∧ isLineBreak opening ∧ isLineBreak closing
         ∧ (isLineBreak e ∨ (e = [] ∧ body r = []))).
Proof.
  cbv zeta. unfold splitFrontMatter.
  destruct (frontMatterLength text) as [len|] eqn:Hlen; cbn [frontMatter body];
    [|by split; [|left]].
  split; [apply take_drop|]. right.
  unfold frontMatterLength in Hlen.
  destruct (startsWith FENCE text) eqn:Hfence; [|done].
  apply startsWith_true in Hfence. change (length FENCE) with 3 in Hfence.
  destruct (lineBreakAt (drop 3 text)) as [k|] eqn:Hopen; [|done].
  apply lineBreakAt_Some in Hopen as (opening & t & Ht & Hopening & ->).
  replace (drop (3 + length opening) text) with t in Hlen.
  2:{ rewrite <- drop_drop, Ht. by rewrite drop_app_length. }
  destruct (lazyClose t) as [c|] eqn:Hclose; [|done].
  assert (len = 3 + length opening + c) as -> by (by injection Hlen as <-).
  clear Hlen.
  apply lazyClose_Some in Hclose as (j & m & -> & Hj & Hm & _).
  apply closingFenceAt_Some in Hm as (closing & e & rest & Hdrop & -> & Hclosing & He).
  assert (Htext : text = (FENCE ++ opening ++ take j t ++ closing ++ FENCE ++ e) ++ rest).
  { rewrite Hfence, Ht. rewrite <- (take_drop j t) at 1. rewrite Hdrop.
    by rewrite <- !app_assoc. }
  assert (Hlength : 3 + length opening + (j + (length closing + 3 + length e))
            = length (FENCE ++ opening ++ take j t ++ closing ++ FENCE ++ e)).
  { rewrite !length_app, length_take. change (length FENCE) with 3. lia. }
  exists opening, (take j t), closing, e. rewrite Hlength.
  split; [rewrite Htext at 1; apply take_app_length|].
  split; [done|]. split; [done|].
  destruct He as [He|[-> ->]]; [by left|right].
  split; [done|]. rewrite Htext at 1. apply drop_app_length.
Qed.


Lemma frontMatter_ends_in_LF (text : jsstring) :
  frontMatter (splitFrontMatter text) ≠ [] →
  body (splitFrontMatter text) ≠ [] →
  last (frontMatter (splitFrontMatter text)) = Some LF.
Proof.
  intros Hfm Hbody.
  destruct (splitFrontMatter_decompose text)
    as (_ & [?|(opening & inner & closing & e & -> & _ & _ & He)]); [done|].
  destruct He as [He|[_ ?]]; [|done].
  rewrite !app_assoc, last_app. by destruct He as [->| ->].
Qed.

(** X9. [splitFrontMatter] loses nothing: front matter and body put
    together are the text.  A front matter is either empty or a fence
    line, any text, and a closing fence on a line of its own, which is
    followed by a line break or ends the text. *)
Theorem splitFrontMatter_shape (text : jsstring) :
  let r := splitFrontMatter text in
  frontMatter r ++ body r = text
  ∧ (frontMatter r = []
     ∨ ∃ opening inner closing e,
         frontMatter r = FENCE ++ opening ++ inner ++ closing ++ FENCE ++ e
         ∧ isLineBreak opening ∧ isLineBreak closing
         ∧ (isLineBreak e ∨ (e = [] ∧ body r = []))).
Proof. apply splitFrontMatter_decompose. Qed.

(** X10. The front matter ends at the first closing fence: after the
    opening line no closing fence matches before the one that ends
    it. *)
Theorem frontMatter_first_fence (text : jsstring) (len : nat) :
  frontMatterLength text = Some len →
  ∃ k start m,
    lineBreakAt (drop 3 text) = Some k
    ∧ len = start + m
    ∧ closingFenceAt (drop start text) = Some m
    ∧ ∀ i, 3 + k ≤ i < start → closingFenceAt (drop i text) = None.
Proof.
  unfold frontMatterLength.
  destruct (startsWith FENCE text); [|done].
  destruct (lineBreakAt (drop 3 text)) as [k|] eqn:Hopen; [|done].
  destruct (lazyClose (drop (3 + k) text)) as [c|] eqn:Hclose; [|done].
  intros [= <-].
  apply lazyClose_Some in Hclose as (j & m & -> & Hj & Hm & Hfirst).
  rewrite drop_drop in Hm.
  exists k, (3 + k + j), m. split; [done|]. split; [lia|]. split; [done|].
  intros i [Hlo Hhi]. specialize (Hfirst (i - (3 + k)) ltac:(lia)).
  rewrite drop_drop in Hfirst. by replace (3 + k + (i - (3 + k))) with i in Hfirst by lia.
Qed.

Lemma frontMatter_first_fence_witness :
  ∃ k start m,
    lineBreakAt (drop 3 (js "---" ++ [LF] ++ js "a: 1" ++ [LF] ++ js "---" ++ [LF]
                          ++ js "x" ++ [LF] ++ js "---" ++ [LF])) = Some k
    ∧ 13 = start + m
    ∧ closingFenceAt (drop start (js "---" ++ [LF] ++ js "a: 1" ++ [LF] ++ js "---" ++ [LF]
                          ++ js "x" ++ [LF] ++ js "---" ++ [LF])) = Some m
    ∧ ∀ i, 3 + k ≤ i < start →
        closingFenceAt (drop i (js "---" ++ [LF] ++ js "a: 1" ++ [LF] ++ js "---" ++ [LF]
                          ++ js "x" ++ [LF] ++ js "---" ++ [LF])) = None.
Proof. apply frontMatter_first_fence. by vm_compute. Defined.

Lemma splitFrontMatter_stable (text newBody : jsstring) :
  last (frontMatter (splitFrontMatter text)) = Some LF →
  splitFrontMatter (frontMatter (splitFrontMatter text) ++ newBody)
  = {| frontMatter := frontMatter (splitFrontMatter text); body := newBody |}.
Proof.
  unfold splitFrontMatter at 1 3 4.
  destruct (frontMatterLength text) as [len|] eqn:Hlen; cbn [frontMatter]; [|done].
  intros Hlast. unfold frontMatterLength in Hlen.
  destruct (startsWith FENCE text) eqn:Hfence; [|done].
  apply startsWith_true in Hfence. change (length FENCE) with 3 in Hfence.
  destruct (lineBreakAt (drop 3 text)) as [k|] eqn:Hopen; [|done].
  pose proof Hopen as (opening & t & Ht & Hopening & ->)%lineBreakAt_Some.
  assert (Hdrop : drop (3 + length opening) text = t).
  { rewrite <- drop_drop, Ht. by rewrite drop_app_length. }
  rewrite Hdrop in Hlen.
  destruct (lazyClose t) as [c|] eqn:Hclose; [|done].
  assert (len = 3 + length opening + c) as -> by (by injection Hlen as <-).
  clear Hlen.
  pose proof (lazyClose_bounds _ _ Hclose) as Hc.
  assert (Htext : text = FENCE ++ opening ++ t) by by rewrite Hfence, Ht.
  assert (Hfm : take (3 + length opening + c) text = FENCE ++ opening ++ take c t).
  { rewrite Htext at 1.
    replace (3 + length opening + c) with (length FENCE + (length opening + c))
      by (change (length FENCE) with 3; lia).
    by rewrite !take_app_add. }
  rewrite Hfm in *.
  assert (Hlast' : last (take c t) = Some LF).
  { rewrite !app_assoc, last_app in Hlast.
    destruct (last (take c t)) eqn:Hl; [done|].
    apply last_None, (f_equal length) in Hl. rewrite length_take in Hl.
    simpl in Hl. lia. }
  pose proof (lazyClose_stable t c newBody Hclose Hlast') as Hstable.
  unfold splitFrontMatter, frontMatterLength.
  assert (startsWith FENCE ((FENCE ++ opening ++ take c t) ++ newBody) = true) as ->.
  { unfold startsWith. apply bool_decide_eq_true.
    rewrite <- app_assoc. by rewrite take_app_length. }
  assert (Hrest : drop 3 ((FENCE ++ opening ++ take c t) ++ newBody)
                  = opening ++ take c t ++ newBody).
  { rewrite <- !app_assoc. by rewrite (drop_app_length FENCE). }
  rewrite Hrest.
  assert (lineBreakAt (opening ++ take c t ++ newBody) = Some (length opening)) as ->.
  { destruct Hopening as [->| ->]; [done|done]. }
  replace (drop (3 + length opening) ((FENCE ++ opening ++ take c t) ++ newBody))
    with (take c t ++ newBody).
  2:{ rewrite <- drop_drop, Hrest. by rewrite drop_app_length. }
  rewrite Hstable.
  replace (3 + length opening + c) with (length (FENCE ++ opening ++ take c t)).
  2:{ rewrite !length_app, length_take. change (length FENCE) with 3. lia. }
  by rewrite take_app_length, drop_app_length.
Qed.


(** X11. Replacing the body keeps the front matter: when the front
    matter of a text ends in a line feed, putting any new body behind it
    gives a text that splits into that same front matter and the new
    body. *)
Theorem frontMatter_survives_rewrite (text newBody : jsstring) :
  last (frontMatter (splitFrontMatter text)) = Some LF →
  splitFrontMatter (frontMatter (splitFrontMatter text) ++ newBody)
  = {| frontMatter := frontMatter (splitFrontMatter text); body := newBody |}.
Proof. apply splitFrontMatter_stable. Qed.

Lemma frontMatter_survives_rewrite_witness :
  splitFrontMatter (js "---" ++ [LF] ++ js "a: 1" ++ [LF] ++ js "---" ++ [LF]
                    ++ js "new text")
  = {| frontMatter := js "---" ++ [LF] ++ js "a: 1" ++ [LF] ++ js "---" ++ [LF];
       body := js "new text" |}.
Proof.
  apply (frontMatter_survives_rewrite
           (js "---" ++ [LF] ++ js "a: 1" ++ [LF] ++ js "---" ++ [LF] ++ js "old")
           (js "new text")).
  by vm_compute.
Defined.

(** * Further properties of the backend client *)

Import Backend.

Section BackendLemmas.

Lemma trim_idempotent s : trim (trim s) = trim s.
Proof.
  destruct (trim s) as [|c u] eqn:Hs; [done|].
  rewrite <- Hs. apply tight_trim, trim_tight. by rewrite Hs.
Qed.

Lemma literal_tight (prefix middle suffix : jsstring) c c' :
  head prefix = Some c → isWhiteSpace c = false →
  last suffix = Some c' → isWhiteSpace c' = false →
  tight (prefix ++ middle ++ suffix).
Proof.
  intros Hc Hcw Hc' Hcw'. split.
  - exists c. by rewrite head_app, Hc.
  - exists c'. by rewrite !app_assoc, last_app, Hc'.
Qed.

Lemma extract_tight output :
  extractTextFromResponseOutput output = []
  ∨ tight (extractTextFromResponseOutput output).
Proof.
  destruct output as [| | | | |items|]; try by left.
  rewrite extract_joined.
  destruct (trimmedBlocks items) as [|c cs] eqn:Hcs; [by left|right].
  apply join_tight; [done|]. rewrite <- Hcs. apply trimmedBlocks_tight.
Qed.

Lemma readApiError_tight json status : tight (readApiError json status).
Proof.
  unfold readApiError.
  assert (Hgeneric : tight (js "API request failed with status "
                            ++ stringOfZ status ++ js ".")).
  { by eapply literal_tight. }
  destruct (nullish _ _) as [| | | |s| |]; try done.
  destruct (truthy (trim s)) eqn:Hs; [|done].
  by apply trim_tight, truthy_true.
Qed.

Lemma improveWithResponses_returned r t :
  improveWithResponses r = Returned t → tight t.
Proof.
  unfold improveWithResponses. destruct (400 <=? status r)%Z; [done|].
  destruct (topLevelText (json r)) as [s|]; [|done]. cbv zeta.
  destruct (truthy (trim s)) eqn:Hs.
  { intros [= <-]. by apply trim_tight, truthy_true. }
  destruct (truthy (extractTextFromResponseOutput _)) eqn:Hout; [|done].
  intros [= <-]. apply truthy_true in Hout.
  by destruct (extract_tight (optProp (json r) "output")).
Qed.

Lemma improveWithChatCompletions_returned r t :
  improveWithChatCompletions r = Returned t → tight t.
Proof.
  unfold improveWithChatCompletions. destruct (400 <=? status r)%Z; [done|].
  destruct (prop (json r) "choices") as [choices|]; [|done]. cbv zeta.
  destruct (nullish _ _) as [| | | |s| |]; try done.
  destruct (truthy (trim s)) eqn:Hs; [|done].
  intros [= <-]. by apply trim_tight, truthy_true.
Qed.

Lemma awaitOutput_returned settled noText t :
  awaitOutput settled noText = Completed (Returned t) → tight t.
Proof.
  unfold awaitOutput. destruct settled as [[result|message]|]; try done.
  cbv zeta. destruct (truthy (trim result)) eqn:Hs; [|done].
  intros [= <-]. by apply trim_tight, truthy_true.
Qed.

End BackendLemmas.

Lemma improveWriting_returned (settings : PluginSettings) (host : Host)
    (input : ImproveWritingInput) (t : jsstring) :
  improveWriting settings host input = Completed (Returned t) → tight t.
Proof.
  intros Hrun. unfold improveWriting in Hrun. destruct (aiBackend settings).
  - by apply awaitOutput_returned in Hrun.
  - destruct (apiStyle settings).
    + destruct (postJson _ _ _ _) as [r|e]; [|done].
      injection Hrun as Hrun. by apply improveWithResponses_returned in Hrun.
    + destruct (postJson _ _ _ _) as [r|e]; [|done].
      injection Hrun as Hrun. by apply improveWithChatCompletions_returned in Hrun.
Qed.

(** X12. Whatever the backend and whatever the host does, a text that
    [improveWriting] returns is not empty and has no white space at
    either end. *)
Theorem improveWriting_never_blank (settings : PluginSettings) (host : Host)
    (input : ImproveWritingInput) (t : jsstring) :
  improveWriting settings host input = Completed (Returned t) →
  t ≠ [] ∧ tight t.
Proof.
  intros Htight%improveWriting_returned.
  split; [by apply tight_nonempty|done].
Qed.

Lemma improveWriting_never_blank_witness :
  js "hi" ≠ [] ∧ tight (js "hi").
Proof.
  apply (improveWriting_never_blank DEFAULT_SETTINGS
           (mkHost desktop
              (λ _, [StdoutData (js " hi"); StdoutData [LF]; Close (Some 0%Z)])
              (λ _ _, Aborted))
           (mkInput (js "text") (js "prompt") None None)).
  by vm_compute.
Defined.

(** X13. With the HTTP backend a response with a status of 400 or more
    always fails, in either API style, with a message that is not blank:
    the message of [readApiError], which for a body that is not JSON is
    the generic one with the status. *)
Theorem http_error_surfaces (settings : PluginSettings) (host : Host)
    (input : ImproveWritingInput) (status : Z) (parsed : option JsValue) :
  aiBackend settings = OpenAiApi →
  (∀ url payload, fetch host url payload = Responded status parsed) →
  (400 ≤ status)%Z →
  improveWriting settings host input
    = Completed (Threw (Error (readApiError (default (JObject []) parsed) status)))
  ∧ tight (readApiError (default (JObject []) parsed) status)
  ∧ readApiError (JObject []) status
    = js "API request failed with status " ++ stringOfZ status ++ js ".".
Proof.
  intros Hbackend Hfetch Hstatus. split; [|split; [apply readApiError_tight|done]].
  unfold improveWriting, postJson. rewrite Hbackend, !Hfetch.
  unfold improveWithResponses, improveWithChatCompletions. cbn [Client.status json].
  rewrite (proj2 (Z.leb_le _ _) Hstatus). by destruct (apiStyle settings).
Qed.

Lemma http_error_surfaces_witness :
  improveWriting (mkPluginSettings OpenAiApi (js "sk") (js "https://h/v1") Responses
                    (js "codex") (js "m") 1000 (js "p"))
    (mkHost desktop (λ _, [])
       (λ _ _, Responded 404
                 (Some (JObject [(js "error",
                                  JObject [(js "message", JString (js "nope"))])]))))
    (mkInput (js "text") (js "prompt") None None)
  = Completed (Threw (Error (js "nope"))).
Proof.
  etrans.
  - apply http_error_surfaces; [done|done|lia].
  - by vm_compute.
Defined.

(** X14. With the HTTP backend a successful response whose body has none
    of the fields the client reads ([output_text] and [output], or
    [choices]), or is not JSON at all, fails with "AI API returned no
    text." in either API style. *)
Theorem http_body_without_text (settings : PluginSettings) (host : Host)
    (input : ImproveWritingInput) (status : Z) (parsed : option JsValue)
    (fields : list (jsstring * JsValue)) :
  aiBackend settings = OpenAiApi →
  (∀ url payload, fetch host url payload = Responded status parsed) →
  (status < 400)%Z →
  default (JObject []) parsed = JObject fields →
  lookupField (js "output_text") fields = JUndefined →
  lookupField (js "output") fields = JUndefined →
  lookupField (js "choices") fields = JUndefined →
  improveWriting settings host input = Completed AI_NO_TEXT.
Proof.
  intros Hbackend Hfetch Hstatus Hbody Htext Hout Hchoices.
  unfold improveWriting, postJson. rewrite Hbackend, !Hfetch, Hbody.
  unfold improveWithResponses, improveWithChatCompletions, topLevelText.
  cbn [Client.status json prop optProp].
  rewrite (proj2 (Z.leb_gt _ _) Hstatus).
  destruct (apiStyle settings).
  - rewrite Htext, Hout. by vm_compute.
  - rewrite Hchoices. by vm_compute.
Qed.

Lemma http_body_without_text_witness :
  improveWriting (mkPluginSettings OpenAiApi (js "sk") (js "https://h/v1")
                    ChatCompletions (js "codex") (js "m") 1000 (js "p"))
    (mkHost desktop (λ _, []) (λ _ _, Responded 200 None))
    (mkInput (js "text") (js "prompt") None None)
  = Completed AI_NO_TEXT.
Proof. by apply (http_body_without_text _ _ _ 200 None []). Defined.

Section ProcessLemmas.

Variable timeoutMs : Z.

(** A run splits at its first [close] or timer event, if it has one. *)
Lemma first_settling_event events :
  forallb isData events = true
  ∨ ∃ data ev rest, events = data ++ ev :: rest
                    ∧ forallb isData data = true ∧ isData ev = false.
Proof.
  induction events as [|ev events IH]; [by left|].
  destruct (isData ev) eqn:Hev.
  - destruct IH as [Hall|(data & ev' & rest & -> & Hdata & Hev')].
    + left. simpl. by rewrite Hev.
    + right. exists (ev :: data), ev', rest. simpl. by rewrite Hev.
  - right. by exists [], ev, events.
Qed.

Lemma close_first data code rest :
  forallb isData data = true →
  settlements (runChild timeoutMs (data ++ Close code :: rest))
  = [ if bool_decide (code = Some 0%Z) then Resolved (trim (stdoutOf data))
      else if truthy (trim (stderrOf data)) then Rejected (trim (stderrOf data))
      else Rejected (exitMessage code) ]
  ∧ killed (runChild timeoutMs (data ++ Close code :: rest)) = []
  ∧ timerCleared (runChild timeoutMs (data ++ Close code :: rest)) = true.
Proof.
  intros Hdata.
  replace (data ++ Close code :: rest) with ((data ++ [Close code]) ++ rest)
    by by rewrite <- app_assoc.
  unfold runChild. rewrite foldl_app.
  assert (Hstep : foldl (handle timeoutMs) spawned (data ++ [Close code])
            = onClose code (runChild timeoutMs data)) by by rewrite foldl_snoc.
  rewrite Hstep, runChild_data by done.
  set (c := onClose code _).
  assert (Hsettled : settled c = true) by done.
  destruct (settled_stable timeoutMs c rest Hsettled) as (_ & -> & ->).
  split; [|split; [done|]].
  - subst c. unfold onClose. cbn. case_bool_decide; [done|].
    by destruct (truthy _).
  - assert (Hkeep : ∀ c', settled c' = true →
              timerCleared (foldl (handle timeoutMs) c' rest) = timerCleared c').
    { clear. induction rest as [|ev rest IH]; intros c' Hc'; [done|].
      simpl. destruct (settled_ignores timeoutMs c' Hc') as [Hclose Htimer].
      destruct ev; simpl; rewrite ?Hclose, ?Htimer; try by apply IH.
      - by rewrite IH.
      - by rewrite IH. }
    by rewrite Hkeep.
Qed.

End ProcessLemmas.

(** X15. With the Codex backend on a desktop host, when the child closes
    before the timer fires: exit code 0 gives the trimmed standard output,
    or the error "Codex CLI returned no text." when that is blank; any
    other code gives the error of the exit, never a text. *)
Theorem codex_run_completes (settings : PluginSettings) (host : Host)
    (input : ImproveWritingInput) (data rest : list ChildEvent)
    (code : option Z) :
  aiBackend settings = CodexCli →
  runtime host = desktop →
  child host (codexArgs (cliSettings settings) input)
    = data ++ Close code :: rest →
  forallb isData data = true →
  improveWriting settings host input =
    Completed
      (if bool_decide (code = Some 0%Z) then
         if truthy (trim (stdoutOf data)) then Returned (trim (stdoutOf data))
         else Threw (Error (js "Codex CLI returned no text."))
       else
         Threw (Error (if truthy (trim (stderrOf data))
                       then trim (stderrOf data) else exitMessage code))).
Proof.
  intros Hbackend Hruntime Hchild Hdata.
  unfold improveWriting, improveWithCodexCli. rewrite Hbackend, Hruntime, Hchild.
  unfold spawnCommand, promiseOf. cbn [hasRequire hasSpawn desktop negb].
  destruct (close_first (requestTimeoutMs settings) data code rest Hdata)
    as (-> & _ & _).
  cbn [head awaitOutput]. case_bool_decide.
  - cbv zeta. rewrite trim_idempotent. by destruct (truthy _).
  - by destruct (truthy (trim (stderrOf data))).
Qed.

Lemma codex_run_completes_witness :
  improveWriting DEFAULT_SETTINGS
    (mkHost desktop (λ _, [StdoutData (js " "); Close (Some 0%Z)]) (λ _ _, Aborted))
    (mkInput (js "text") (js "prompt") None None)
  = Completed (Threw (Error (js "Codex CLI returned no text."))).
Proof.
  etrans.
  - by apply (codex_run_completes _ _ _ [StdoutData (js " ")] [] (Some 0%Z)).
  - by vm_compute.
Defined.

(** X16. With the Codex backend the call stays pending exactly while the
    host can spawn processes and the child has sent nothing but output:
    a host that cannot spawn fails the call at once, and the first
    [close] or timer event completes it. *)
Theorem codex_run_pending (settings : PluginSettings) (host : Host)
    (input : ImproveWritingInput) :
  aiBackend settings = CodexCli →
  improveWriting settings host input = Pending
  ↔ hasRequire (runtime host) = true ∧ hasSpawn (runtime host) = true
    ∧ forallb isData (child host (codexArgs (cliSettings settings) input)) = true.
Proof.
  intros Hbackend. unfold improveWriting, improveWithCodexCli. rewrite Hbackend.
  set (events := child host _). set (t := requestTimeoutMs settings).
  unfold spawnCommand.
  destruct (hasRequire (runtime host)); cbn [negb];
    [|split; [done|by intros (? & _)]].
  destruct (hasSpawn (runtime host)); cbn [negb];
    [|split; [done|by intros (_ & ? & _)]].
  unfold promiseOf.
  destruct (first_settling_event events) as [Hdata|(data & ev & rest & -> & Hdata & Hev)].
  - rewrite runChild_data by done. by cbn.
  - rewrite later_events_ignored by done.
    pose proof (settling_event_settles t data ev Hev) as Hsettled.
    destruct (settled_iff_called t (data ++ [ev])) as [[_ Hone]|[Hno _]];
      [|congruence].
    destruct (settlements (runChild t (data ++ [ev]))) as [|o os]; [done|].
    split.
    + destruct o; cbn; [by destruct (truthy _)|done].
    + intros (_ & _ & Hall). rewrite forallb_app in Hall.
      apply andb_true_iff in Hall as [_ Hall]. simpl in Hall. by rewrite Hev in Hall.
Qed.

(** X17. In every run of the child, [SIGTERM] is sent at most once, and
    only when the timer settled the call with the timeout error; when
    [close] settled it, the timer is cleared and the child is never
    killed. *)
Theorem kill_only_on_timeout (timeoutMs : Z) (events : list ChildEvent) :
  let c := runChild timeoutMs events in
  (settled c = false ∧ settlements c = [] ∧ killed c = []
   ∧ timerCleared c = false)
  ∨ (settled c = true ∧ settlements c = [timeoutRejection timeoutMs]
     ∧ killed c = [js "SIGTERM"] ∧ timerCleared c = false)
  ∨ (settled c = true ∧ length (settlements c) = 1 ∧ killed c = []
     ∧ timerCleared c = true).
Proof.
  induction events as [|ev events IH] using rev_ind; [by left|].
  cbv zeta in *. unfold runChild in *. rewrite foldl_snoc.
  set (c := foldl (handle timeoutMs) spawned events) in *.
  destruct IH as [(Hs & Hset & Hk & Ht)|[(Hs & Hset & Hk & Ht)|(Hs & Hset & Hk & Ht)]];
    destruct ev as [chunk|chunk|code|]; cbn [handle];
    unfold onStdout, onStderr, onClose, onTimeout; rewrite ?Hs;
    cbn [settled settlements killed timerCleared];
    rewrite ?Hset, ?Hk, ?Ht; auto 10.
Qed.

(** X18. A trailing slash of the configured base URL does not change
    the address of a request. *)
Theorem base_url_trailing_slash (s1 s2 : PluginSettings) (path : jsstring) :
  apiBaseUrl s1 = apiBaseUrl s2 ++ [SLASH] →
  last (apiBaseUrl s2) ≠ Some SLASH →
  requestUrl s1 path = apiBaseUrl s2 ++ path
  ∧ requestUrl s2 path = apiBaseUrl s2 ++ path.
Proof.
  intros Hslash Hlast. unfold requestUrl, stripTrailingSlash.
  rewrite Hslash, reverse_snoc. unfold SLASH at 1 3. rewrite N.eqb_refl.
  rewrite reverse_involutive. split; [done|].
  rewrite <- head_reverse in Hlast.
  destruct (reverse (apiBaseUrl s2)) as [|c r]; [done|].
  destruct (N.eqb_spec c SLASH) as [->|_]; done.
Qed.

Lemma base_url_trailing_slash_witness :
  requestUrl (mkPluginSettings OpenAiApi [] (js "https://api.openai.com/v1/")
                Responses [] [] 0 []) (js "/responses")
  = js "https://api.openai.com/v1/responses".
Proof.
  refine (proj1 (base_url_trailing_slash
                   (mkPluginSettings OpenAiApi [] (js "https://api.openai.com/v1/")
                      Responses [] [] 0 [])
                   DEFAULT_SETTINGS (js "/responses") _ _)); by vm_compute.
Defined.

Lemma codex_run_pending_witness :
  improveWriting DEFAULT_SETTINGS
    (mkHost desktop (λ _, [StdoutData (js "so far")]) (λ _ _, Aborted))
    (mkInput (js "text") (js "prompt") None None)
  = Pending.
Proof.
  by apply (proj2 (codex_run_pending DEFAULT_SETTINGS
                     (mkHost desktop (λ _, [StdoutData (js "so far")]) (λ _ _, Aborted))
                     (mkInput (js "text") (js "prompt") None None) eq_refl)).
Defined.

(** * Properties of the plugin settings *)

Import Plugin.

(** X19. Loading settings: with the Codex backend the loaded model is
    never the legacy "gpt-5-mini"; the settings are written exactly when
    the stored backend is not the API and the stored model is
    "gpt-5-mini", and then the loaded model is "gpt-5-codex"; every
    other setting is the stored value, or the default where none is
    stored; and loading what was saved gives the same settings again
    without a further write. *)
Theorem loadSettings_migrates (saved : SavedData) :
  let defaulted := assignDefaults saved in
  let loaded := loadSettings saved in
  (aiBackend loaded.1 = CodexCli → model loaded.1 ≠ js "gpt-5-mini")
  ∧ (loaded.2 = true ↔
       aiBackend defaulted = CodexCli ∧ model defaulted = js "gpt-5-mini")
  ∧ (loaded.2 = true ↔
       savedAiBackend saved ≠ Some OpenAiApi
       ∧ savedModel saved = Some (js "gpt-5-mini"))
  ∧ (loaded.2 = true → model loaded.1 = js "gpt-5-codex")
  ∧ (loaded.2 = false →
     loaded.1 = defaulted
     ∧ model loaded.1 = default (js "gpt-5-codex") (savedModel saved))
  ∧ (aiBackend loaded.1 = default CodexCli (savedAiBackend saved)
     ∧ apiKey loaded.1 = default [] (savedApiKey saved)
     ∧ apiBaseUrl loaded.1
       = default (js "https://api.openai.com/v1") (savedApiBaseUrl saved)
     ∧ apiStyle loaded.1 = default Responses (savedApiStyle saved)
     ∧ codexCommand loaded.1 = default (js "codex") (savedCodexCommand saved)
     ∧ requestTimeoutMs loaded.1
       = default 60000%Z (savedRequestTimeoutMs saved)
     ∧ writingSystemPrompt loaded.1
       = default (writingSystemPrompt DEFAULT_SETTINGS)
           (savedWritingSystemPrompt saved))
  ∧ loadSettings (savedOf loaded.1) = (loaded.1, false).
Proof.
  cbv zeta. unfold loadSettings.
  assert (Hround : ∀ s, assignDefaults (savedOf s) = s) by by intros [].
  assert (Hsaved : aiBackend (assignDefaults saved) = CodexCli
                   ∧ model (assignDefaults saved) = js "gpt-5-mini"
                   ↔ savedAiBackend saved ≠ Some OpenAiApi
                     ∧ savedModel saved = Some (js "gpt-5-mini")).
  { destruct saved as [backend ? ? ? ? m ? ?]. cbn.
    destruct backend as [[|]|], m as [m|]; cbn; split;
      intros [? ?]; split; try done; congruence. }
  assert (Hfields : ∀ m,
            let s := withModel (assignDefaults saved) m in
            aiBackend s = default CodexCli (savedAiBackend saved)
            ∧ apiKey s = default [] (savedApiKey saved)
            ∧ apiBaseUrl s
              = default (js "https://api.openai.com/v1") (savedApiBaseUrl saved)
            ∧ apiStyle s = default Responses (savedApiStyle saved)
            ∧ codexCommand s = default (js "codex") (savedCodexCommand saved)
            ∧ requestTimeoutMs s
              = default 60000%Z (savedRequestTimeoutMs saved)
            ∧ writingSystemPrompt s
              = default (writingSystemPrompt DEFAULT_SETTINGS)
                  (savedWritingSystemPrompt saved)) by done.
  assert (Hsame : withModel (assignDefaults saved) (model (assignDefaults saved))
                  = assignDefaults saved) by done.
  destruct (aiBackend (assignDefaults saved)) eqn:Hbackend.
  - case_bool_decide as Hmodel; cbn [fst snd].
    + split; [by intros _|]. split; [done|].
      split; [by split; [intros _; apply Hsaved|]|].
      split; [done|]. split; [done|].
      split; [apply Hfields|].
      rewrite Hround. cbn [aiBackend withModel]. rewrite Hbackend.
      by rewrite bool_decide_eq_false_2.
    + split; [done|]. split; [by split; [|intros [_ ?]]|].
      split; [split; [done|by intros [_ ?]%Hsaved]|].
      split; [done|].
      split; [intros _; split; [done|by destruct saved]|].
      split; [rewrite <- Hsame; apply Hfields|].
      rewrite Hround, Hbackend. by rewrite bool_decide_eq_false_2.
  - cbn [fst snd]. split; [by rewrite Hbackend|].
    split; [by split; [|intros [? _]]|].
    split; [split; [done|by intros [? _]%Hsaved]|].
    split; [done|].
    split; [intros _; split; [done|by destruct saved]|].
    split; [rewrite <- Hsame; apply Hfields|].
    by rewrite Hround, Hbackend.
Qed.

Section SettingLemmas.

Lemma trimmedOr_tight value fallback :
  tight fallback → tight (trimmedOr value fallback).
Proof.
  intros Hfallback. unfold trimmedOr.
  destruct (truthy (trim value)) eqn:Hvalue; [|done].
  by apply trim_tight, truthy_true.
Qed.

Lemma ascii_tight (s : jsstring) c c' :
  head s = Some c → isWhiteSpace c = false →
  last s = Some c' → isWhiteSpace c' = false → tight s.
Proof. intros. split; eauto. Qed.

End SettingLemmas.

(** X20. Whatever is typed into the settings tab, the Codex command, the
    base URL, the model and the system prompt are stored as typed, with
    the white space at both ends removed; an input of white space only
    stores the default instead; so none of the four is ever left blank
    or carries white space at either end. *)
Theorem text_settings_never_blank (value : jsstring) (settings : PluginSettings) :
  let stored fallback := if whitespaceOnly value then fallback else trim value in
  codexCommand (changeCodexCommand value settings) = stored (js "codex")
  ∧ apiBaseUrl (changeApiBaseUrl value settings)
    = stored (js "https://api.openai.com/v1")
  ∧ model (changeModel value settings) = stored (js "gpt-5-codex")
  ∧ writingSystemPrompt (changeWritingSystemPrompt value settings)
    = stored (js "You are an expert writing editor. Improve clarity, flow, grammar, and structure while preserving the original meaning and markdown format.")
  ∧ tight (codexCommand (changeCodexCommand value settings))
  ∧ tight (apiBaseUrl (changeApiBaseUrl value settings))
  ∧ tight (model (changeModel value settings))
  ∧ tight (writingSystemPrompt (changeWritingSystemPrompt value settings)).
Proof.
  cbv zeta.
  assert (Hstored : ∀ fallback,
            trimmedOr value fallback
            = if whitespaceOnly value then fallback else trim value).
  { intros fallback. unfold trimmedOr.
    destruct (whitespaceOnly value) eqn:Hws.
    - apply trim_nil in Hws. by rewrite Hws.
    - destruct (truthy (trim value)) eqn:Htrim; [done|].
      apply truthy_false, trim_nil in Htrim. congruence. }
  split; [apply Hstored|]. split; [apply Hstored|]. split; [apply Hstored|].
  split; [apply Hstored|].
  repeat split; apply trimmedOr_tight; by eapply ascii_tight.
Qed.

(** X21. After the API key field changes, the plugin counts as
    configured exactly when the backend is the Codex CLI or the typed
    key is not white space only. *)
Theorem api_key_configured (value : jsstring) (settings : PluginSettings) :
  hasAiConfigured (changeApiKey value settings) = true
  ↔ aiBackend settings = CodexCli ∨ whitespaceOnly value = false.
Proof.
  unfold hasAiConfigured, changeApiKey. cbn [aiBackend apiKey].
  destruct (aiBackend settings).
  - split; [by left|done].
  - rewrite trim_idempotent, truthy_true.
    split.
    + intros Hkey. right. destruct (whitespaceOnly value) eqn:Hws; [|done].
      by apply trim_nil in Hws.
    + intros [?|Hws]; [done|]. intros Hnil%trim_nil. congruence.
Qed.

(** X22. Whatever number the timeout field parses to, the stored timeout
    is a whole number of at least 1000 milliseconds: for a finite number
    of at least 1000 it is that number rounded down, the greatest whole
    number not above it; for every other number, and for what is not a
    number, it is the default 60000. *)
Theorem timeout_at_least_1000 (parsed : JsNumber) (settings : PluginSettings) :
  let stored := requestTimeoutMs (changeRequestTimeout parsed settings) in
  (1000 ≤ stored)%Z
  ∧ (∀ q, parsed = Finite q → (inject_Z 1000 <= q)%Q →
       stored = Qfloor q
       ∧ (inject_Z stored <= q)%Q ∧ (q < inject_Z (stored + 1))%Q)
  ∧ (∀ q, parsed = Finite q → (q < inject_Z 1000)%Q → stored = 60000%Z)
  ∧ (parsed = NaN ∨ parsed = PosInfinity ∨ parsed = NegInfinity →
     stored = 60000%Z).
Proof.
  cbv zeta. unfold changeRequestTimeout. cbn [requestTimeoutMs].
  split; [|split; [|split]].
  - destruct parsed as [| | |q]; try (cbn; lia).
    destruct (Qle_bool (inject_Z 1000) q) eqn:Hq; [|cbn; lia].
    apply Qle_bool_iff, Qfloor_resp_le in Hq. by rewrite Qfloor_Z in Hq.
  - intros q -> Hq. rewrite (proj2 (Qle_bool_iff _ _) Hq).
    split; [done|]. split; [apply Qfloor_le|apply Qlt_floor].
  - intros q -> Hq.
    destruct (Qle_bool (inject_Z 1000) q) eqn:Hle; [|done].
    apply Qle_bool_iff in Hle. by destruct (Qlt_not_le _ _ Hq).
  - by intros [->|[->| ->]].
Qed.

Lemma timeout_at_least_1000_witness :
  requestTimeoutMs (changeRequestTimeout (Finite (25007 # 10)) DEFAULT_SETTINGS)
  = 2500%Z
  ∧ requestTimeoutMs (changeRequestTimeout (Finite (9999 # 10)) DEFAULT_SETTINGS)
    = 60000%Z.
Proof.
  split.
  - etrans.
    + by apply (proj1 (proj2 (timeout_at_least_1000 (Finite (25007 # 10))
                                 DEFAULT_SETTINGS)) (25007 # 10)).
    + by vm_compute.
  - by apply (proj1 (proj2 (proj2 (timeout_at_least_1000 (Finite (9999 # 10))
                                     DEFAULT_SETTINGS))) (9999 # 10)).
Defined.

Lemma loadSettings_migrates_witness :
  model (loadSettings (mkSaved None None None None None (Some (js "gpt-5-mini"))
                         None None)).1
  = js "gpt-5-codex".
Proof.
  apply (proj1 (proj2 (proj2 (proj2 (loadSettings_migrates
                     (mkSaved None None None None None (Some (js "gpt-5-mini"))
                        None None)))))).
  apply (proj2 (proj1 (proj2 (proj2 (loadSettings_migrates
                     (mkSaved None None None None None (Some (js "gpt-5-mini"))
                        None None)))))).
  by split.
Defined.

(** * Properties of the per-file thread modes *)

Import Threads.

(** X23. Saving through the modal and clearing keep the store sound:
    if every override that asks for a specific thread names one, this
    is still so afterwards. *)
Theorem overrides_stay_named (filePath : jsstring) (modeValue : CodexThreadMode)
    (idValue : jsstring) (current : option jsstring) (ts : ThreadSettings) :
  overridesNamed ts →
  overridesNamed (saveThreadMode filePath modeValue idValue ts).1
  ∧ overridesNamed (clearThreadModeForCurrentFile current ts).1.
Proof.
  intros Hnamed. split.
  - unfold saveThreadMode. cbv zeta.
    destruct (_ && _) eqn:Hreject; [done|].
    intros p o. cbn [fst codexThreadOverrides withOverrides].
    destruct (decide (filePath = p)) as [->|Hne].
    + rewrite lookup_insert_eq. intros [= <-]. cbn [mode threadId]. intros ->.
      simpl in Hreject. by apply negb_false_iff, truthy_true in Hreject.
    + rewrite lookup_insert_ne by done. exact (Hnamed p o).
  - unfold clearThreadModeForCurrentFile.
    destruct (presentPath current) as [p|]; [|done].
    destruct (codexThreadOverrides ts !! p) eqn:Hp; [|done].
    intros q o. cbn [fst codexThreadOverrides withOverrides].
    intros [_ Hq]%lookup_delete_Some. exact (Hnamed q o Hq).
Qed.

Lemma overrides_stay_named_witness :
  overridesNamed
    (saveThreadMode (js "a.md") ThreadSpecific (js " t-1 ")
       (mkThreadSettings ThreadNew [] ∅)).1.
Proof.
  refine (proj1 (overrides_stay_named (js "a.md") ThreadSpecific (js " t-1 ") None
                   (mkThreadSettings ThreadNew [] ∅) _)).
  intros p o Hp. cbn [codexThreadOverrides] in Hp. by rewrite lookup_empty in Hp.
Defined.

(** X24. A thread mode that the modal accepts for a file is what the
    modal opens with for that file afterwards, with the id trimmed; the
    other files are not affected; and after clearing, the file is back at
    the global mode and id. *)
Theorem thread_mode_round_trip (filePath : jsstring) (modeValue : CodexThreadMode)
    (idValue : jsstring) (ts : ThreadSettings) :
  filePath ≠ [] →
  (modeValue = ThreadSpecific → trim idValue ≠ []) →
  let ts' := (saveThreadMode filePath modeValue idValue ts).1 in
  setThreadModeForCurrentFile (Some filePath) ts' = inl (modeValue, trim idValue)
  ∧ (∀ other, other ≠ filePath →
       setThreadModeForCurrentFile (Some other) ts'
       = setThreadModeForCurrentFile (Some other) ts)
  ∧ setThreadModeForCurrentFile (Some filePath)
      (clearThreadModeForCurrentFile (Some filePath) ts').1
    = inl (codexThreadMode ts, codexThreadId ts).
Proof.
  intros Hpath Hid ts'.
  assert (Hpresent : presentPath (Some filePath) = Some filePath).
  { unfold presentPath. by destruct filePath. }
  assert (Hts' : ts' = withOverrides ts
            (<[filePath := {| mode := modeValue; threadId := trim idValue |}]>
               (codexThreadOverrides ts))).
  { subst ts'. unfold saveThreadMode. cbv zeta.
    destruct modeValue; try done.
    specialize (Hid eq_refl). apply truthy_true in Hid. by rewrite Hid. }
  rewrite Hts'. unfold setThreadModeForCurrentFile, clearThreadModeForCurrentFile.
  rewrite Hpresent. cbn [codexThreadOverrides withOverrides codexThreadMode codexThreadId].
  rewrite lookup_insert_eq. cbn [fst codexThreadOverrides withOverrides
                                 codexThreadMode codexThreadId].
  rewrite lookup_delete_eq.
  split; [done|]. split; [|done].
  intros other Hother. unfold presentPath.
  destruct (truthy other); [|done]. by rewrite lookup_insert_ne.
Qed.

Lemma thread_mode_round_trip_witness :
  setThreadModeForCurrentFile (Some (js "a.md"))
    (saveThreadMode (js "a.md") ThreadSpecific (js " t-1 ")
       (mkThreadSettings ThreadNew [] ∅)).1
  = inl (ThreadSpecific, js "t-1").
Proof.
  refine (proj1 (thread_mode_round_trip (js "a.md") ThreadSpecific (js " t-1 ")
                   (mkThreadSettings ThreadNew [] ∅) _ _)); by vm_compute.
Defined.

(** * Properties of the improve command *)

Import Flow.

(** X25. The command consults the AI client only when the plugin is
    configured, and only about text that is not blank: clients that agree
    on every input with non-blank text lead to the same outcome, and
    without configuration the outcome is the setup notice whatever the
    client. *)
Theorem command_asks_only_about_text (ai1 ai2 : ImproveWritingInput → Completion)
    (settings : PluginSettings) (ts : ThreadSettings) (ws : Workspace)
    (userInstruction targetFilePath : option jsstring) :
  ((∀ input, trim (text input) ≠ [] → ai1 input = ai2 input) →
   improveCurrentWritingWith ai1 settings ts ws userInstruction targetFilePath
   = improveCurrentWritingWith ai2 settings ts ws userInstruction targetFilePath)
  ∧ (hasAiConfigured settings = false →
     improveCurrentWritingWith ai1 settings ts ws userInstruction targetFilePath
     = SetupNeeded NOT_CONFIGURED).
Proof.
  unfold improveCurrentWritingWith. split.
  - intros Hagree. destruct (hasAiConfigured settings); [|done]. cbn [negb].
    destruct (resolveView ws targetFilePath) as [view|]; [|done]. cbv zeta.
    destruct (truthy (trim (if truthy (trim (selection view)) then _ else _)));
      [|done].
    cbn [negb].
    destruct (truthy (trim (if truthy (trim (selection view)) then _ else _)))
      eqn:Htext; [|done].
    cbn [negb]. rewrite Hagree; [done|].
    cbn [text]. by apply truthy_true.
  - by intros ->.
Qed.

Lemma command_asks_only_about_text_witness :
  improveCurrentWritingWith (λ _, Pending)
    (mkPluginSettings OpenAiApi (js "  ") [] Responses [] [] 0 [])
    (mkThreadSettings ThreadNew [] ∅)
    (mkWorkspace [] (Some (mkView None [] (js "note"))))
    None None
  = SetupNeeded NOT_CONFIGURED.
Proof.
  by apply (proj2 (command_asks_only_about_text (λ _, Pending) (λ _, Pending)
                     (mkPluginSettings OpenAiApi (js "  ") [] Responses [] [] 0 [])
                     (mkThreadSettings ThreadNew [] ∅)
                     (mkWorkspace [] (Some (mkView None [] (js "note"))))
                     None None)).
Defined.

(** X26. With this client the notice "No improved text returned." can
    never appear: a text the client returns is never blank. *)
Theorem no_improved_text_is_unreachable (settings : PluginSettings) (host : Host)
    (ts : ThreadSettings) (ws : Workspace)
    (userInstruction targetFilePath : option jsstring) :
  improveCurrentWriting settings host ts ws userInstruction targetFilePath
  ≠ Notice NO_IMPROVED_TEXT.
Proof.
  unfold improveCurrentWriting, improveCurrentWritingWith.
  destruct (hasAiConfigured settings); [|done]. cbn [negb].
  destruct (resolveView ws targetFilePath) as [view|];
    [|intros [= H]; by vm_compute in H].
  cbv zeta.
  destruct (truthy (trim (if truthy (trim (selection view)) then _ else _)));
    [|intros [= H]; by vm_compute in H].
  cbn [negb].
  destruct (truthy (trim (if truthy (trim (selection view)) then _ else _)));
    [|intros [= H]; by vm_compute in H].
  cbn [negb].
  destruct (improveWriting settings host _) as [|[t|e]] eqn:Hrun; [done| |done].
  apply improveWriting_returned in Hrun.
  rewrite (tight_trim _ Hrun), (proj2 (truthy_true t) (tight_nonempty _ Hrun)).
  done.
Qed.

(** X27. A whole-note run keeps the front matter: when the review opens
    for the whole note, the note is the text of the resolved view, it is
    its front matter followed by a non-blank body, the client was asked
    about that body under the prompt of the edit, and the proposed text
    is the front matter of the note followed by the text that the client
    returned; a non-empty front matter is again the front matter of the
    proposed text. *)
Theorem command_keeps_front_matter (ai : ImproveWritingInput → Completion)
    (settings : PluginSettings) (ts : ThreadSettings) (ws : Workspace)
    (userInstruction targetFilePath : option jsstring)
    (original proposed : jsstring) :
  improveCurrentWritingWith ai settings ts ws userInstruction targetFilePath
    = Review original proposed false →
  ∃ view input improved,
    resolveView ws targetFilePath = Some view
    ∧ value view = original
    ∧ text input = body (splitFrontMatter original)
    ∧ systemPrompt input = editPrompt settings userInstruction
    ∧ ai input = Completed (Returned improved)
    ∧ trim improved ≠ []
    ∧ proposed = frontMatter (splitFrontMatter original) ++ improved
    ∧ original = frontMatter (splitFrontMatter original)
                 ++ body (splitFrontMatter original)
    ∧ trim (body (splitFrontMatter original)) ≠ []
    ∧ (frontMatter (splitFrontMatter original) ≠ [] →
       splitFrontMatter proposed
       = {| frontMatter := frontMatter (splitFrontMatter original);
            body := improved |}).
Proof.
  unfold improveCurrentWritingWith.
  destruct (hasAiConfigured settings); [|done]. cbn [negb].
  destruct (resolveView ws targetFilePath) as [view|]; [|done]. cbv zeta.
  destruct (truthy (trim (selection view))) eqn:Hselection.
  { repeat (destruct (truthy _); try done).
    destruct (ai _) as [|[t|e]]; try done. by destruct (truthy _). }
  destruct (truthy (trim (value view))); [|done]. cbn [negb].
  destruct (truthy (trim (body (splitFrontMatter (value view))))) eqn:Hbody; [|done].
  cbn [negb].
  match goal with |- context [ai ?i] => set (input := i) end.
  destruct (ai input) as [|[t|e]] eqn:Hai; try done.
  destruct (truthy (trim t)) eqn:Ht; [|done]. cbn [negb].
  intros [= <- <-]. exists view, input, t.
  apply truthy_true in Hbody. apply truthy_true in Ht.
  destruct (splitFrontMatter_decompose (value view)) as [Hround _].
  do 9 (split; [done|]).
  intros Hfm. apply splitFrontMatter_stable, frontMatter_ends_in_LF; [done|].
  by intros Hnil; rewrite Hnil in Hbody.
Qed.

Lemma command_keeps_front_matter_witness :
  js "---" ++ [LF] ++ js "a: 1" ++ [LF] ++ js "---" ++ [LF] ++ js "Better."
  = frontMatter (splitFrontMatter
                   (js "---" ++ [LF] ++ js "a: 1" ++ [LF] ++ js "---" ++ [LF]
                    ++ js "Good."))
    ++ js "Better.".
Proof.
  destruct (command_keeps_front_matter (λ _, Completed (Returned (js "Better.")))
              DEFAULT_SETTINGS (mkThreadSettings ThreadNew [] ∅)
              (mkWorkspace []
                 (Some (mkView None []
                          (js "---" ++ [LF] ++ js "a: 1" ++ [LF] ++ js "---" ++ [LF]
                           ++ js "Good."))))
              None None
              (js "---" ++ [LF] ++ js "a: 1" ++ [LF] ++ js "---" ++ [LF] ++ js "Good.")
              (js "---" ++ [LF] ++ js "a: 1" ++ [LF] ++ js "---" ++ [LF]
               ++ js "Better.")
              ltac:(by vm_compute))
    as (view & input & improved & _ & _ & _ & _ & Hai & _ & Hproposed & _).
  injection Hai as <-. exact Hproposed.
Defined.

(** X28. With a non-blank selection the rest of the note plays no part:
    two views with the same file and the same selection lead to the same
    outcome, whatever their full text is. *)
Theorem selection_decides (ai : ImproveWritingInput → Completion)
    (settings : PluginSettings) (ts : ThreadSettings) (ws ws' : Workspace)
    (userInstruction targetFilePath : option jsstring) (view view' : View) :
  resolveView ws targetFilePath = Some view →
  resolveView ws' targetFilePath = Some view' →
  filePath view = filePath view' →
  selection view = selection view' →
  trim (selection view) ≠ [] →
  improveCurrentWritingWith ai settings ts ws userInstruction targetFilePath
  = improveCurrentWritingWith ai settings ts ws' userInstruction targetFilePath.
Proof.
  intros Hview Hview' Hpath Hselection Htext%truthy_true.
  unfold improveCurrentWritingWith. rewrite Hview, Hview'. cbv zeta.
  rewrite <- Hselection, <- Hpath, Htext. done.
Qed.

Lemma selection_decides_witness :
  improveCurrentWritingWith (λ _, Completed (Returned (js "Better.")))
    DEFAULT_SETTINGS (mkThreadSettings ThreadNew [] ∅)
    (mkWorkspace [] (Some (mkView None (js "Good.") (js "one note")))) None None
  = improveCurrentWritingWith (λ _, Completed (Returned (js "Better.")))
      DEFAULT_SETTINGS (mkThreadSettings ThreadNew [] ∅)
      (mkWorkspace [] (Some (mkView None (js "Good.") (js "another note")))) None None.
Proof.
  by apply (selection_decides _ _ _ _ _ None None
              (mkView None (js "Good.") (js "one note"))
              (mkView None (js "Good.") (js "another note"))).
Defined.

(** * A late close after the timeout *)

Section NumberLemmas.

Lemma toDouble_small x : (x < 2 ^ 53)%Z → toDouble x = x.
Proof.
  intros Hx. unfold toDouble. by rewrite (proj2 (Z.ltb_lt _ _) Hx).
Qed.

Lemma toDouble_large x : (2 ^ 53 ≤ x)%Z → (2 ^ 53 ≤ toDouble x)%Z.
Proof.
  intros Hx. unfold toDouble. rewrite (proj2 (Z.ltb_ge _ _) Hx).
  assert (Hpos : (0 < x)%Z) by (change (2 ^ 53)%Z with 9007199254740992%Z in Hx; lia).
  pose proof (Z.log2_spec x Hpos) as [Hlow _].
  assert (He : (53 ≤ Z.log2 x)%Z).
  { rewrite <- (Z.log2_pow2 53) by done. by apply Z.log2_le_mono. }
  set (e := Z.log2 x) in *.
  set (ulp := (2 ^ (e - 52))%Z).
  assert (Hsplit : (2 ^ e = 2 ^ 52 * ulp)%Z).
  { unfold ulp. rewrite <- Z.pow_add_r by lia. f_equal. lia. }
  assert (Hulp : (2 ≤ ulp)%Z).
  { change 2%Z with (2 ^ 1)%Z at 1. apply Z.pow_le_mono_r; lia. }
  assert (Hm : (2 ^ 52 ≤ x / ulp)%Z).
  { apply Z.div_le_lower_bound; lia. }
  change (2 ^ 53)%Z with 9007199254740992%Z.
  change (2 ^ 52)%Z with 4503599627370496%Z in Hm.
  cbv zeta. repeat case_match; nia.
Qed.

Lemma fitting_small v p c :
  (0 < v < 2 ^ 53)%Z → (0 < p)%Z → fitting v p = Some c → c = v.
Proof.
  intros [Hpos Hv] Hp. unfold fitting.
  set (below := (v / p * p)%Z). set (above := (below + p)%Z).
  assert (Hbelow : (below ≤ v < above)%Z).
  { unfold above, below. pose proof (Z.mul_div_le v p Hp).
    pose proof (Z.mul_succ_div_gt v p Hp). lia. }
  assert (Habove : (toDouble above =? v)%Z = false).
  { apply Z.eqb_neq. destruct (Z.lt_ge_cases above (2 ^ 53)) as [Hlt|Hge].
    - rewrite toDouble_small by done. lia.
    - pose proof (toDouble_large above Hge). lia. }
  rewrite Habove, andb_false_r, toDouble_small by lia.
  destruct ((0 <? below)%Z && (below =? v)%Z) eqn:Hfits; [|done].
  apply andb_true_iff in Hfits as [_ Heq%Z.eqb_eq]. by intros [= <-].
Qed.

Lemma shortestDecimal_small v j :
  (0 < v < 2 ^ 53)%Z → shortestDecimal v j = v.
Proof.
  intros Hv. induction j as [|j IH]; cbn [shortestDecimal].
  - destruct (fitting v _) as [c|] eqn:Hc; [|done].
    eapply fitting_small; [done| |done]. by apply Z.pow_pos_nonneg.
  - destruct (fitting v _) as [c|] eqn:Hc; [|done].
    eapply fitting_small; [done| |done]. apply Z.pow_pos_nonneg; lia.
Qed.

Lemma stringOfPositive_safe x :
  (0 < x < 2 ^ 53)%Z → stringOfPositive x = decimalOfZ x.
Proof.
  intros Hx. unfold stringOfPositive.
  rewrite toDouble_small by lia. cbv zeta.
  rewrite shortestDecimal_small by done.
  assert (H1024 : (2 ^ 1024 <=? x)%Z = false).
  { apply Z.leb_gt. eapply Z.lt_trans; [apply Hx|]. by vm_compute. }
  assert (H21 : (x <? 10 ^ 21)%Z = true).
  { apply Z.ltb_lt. eapply Z.lt_trans; [apply Hx|]. by vm_compute. }
  by rewrite H1024, H21.
Qed.

(** Below [2 ^ 53] a number is written with all its digits. *)
Lemma stringOfZ_safe z : (Z.abs z < 2 ^ 53)%Z → stringOfZ z = decimalOfZ z.
Proof.
  intros Hz. destruct z as [|p|p]; [done| |].
  - apply stringOfPositive_safe. lia.
  - cbn [stringOfZ]. rewrite stringOfPositive_safe by lia. done.
Qed.

End NumberLemmas.

(** X29. When the timer fires before the child closes, the promise of
    [spawnCommand] is rejected once, with the timeout message, and the
    child is sent [SIGTERM] once, whatever events follow.  The message
    names the timeout as JavaScript writes the number: with all its
    digits below [2 ^ 53], and as [1e+21] for a timeout of [10 ^ 21]
    milliseconds. *)
Theorem timeout_rejects_and_kills (timeoutMs : Z) (events rest : list ChildEvent) :
  forallb isData events = true →
  (settlements (runChild timeoutMs (events ++ TimeoutFired :: rest))
     = [Rejected (js "Codex CLI timed out after " ++ stringOfZ timeoutMs
                  ++ js "ms.")]
   ∧ killed (runChild timeoutMs (events ++ TimeoutFired :: rest))
     = [js "SIGTERM"])
  ∧ ((Z.abs timeoutMs < 2 ^ 53)%Z →
     settlements (runChild timeoutMs (events ++ TimeoutFired :: rest))
     = [Rejected (js "Codex CLI timed out after " ++ decimalOfZ timeoutMs
                  ++ js "ms.")])
  ∧ settlements (runChild (10 ^ 21) (events ++ TimeoutFired :: rest))
    = [Rejected (js "Codex CLI timed out after 1e+21ms.")].
Proof.
  intros Hdata. split; [by apply timeout_first|]. split.
  - intros Hsafe. rewrite <- (stringOfZ_safe timeoutMs Hsafe).
    by apply timeout_first.
  - apply (timeout_first (10 ^ 21) events rest Hdata).
Qed.

Lemma timeout_rejects_and_kills_witness :
  forallb isData [StdoutData (js "so far")] = true
  ∧ settlements (runChild 60000 ([StdoutData (js "so far")] ++ TimeoutFired
                                 :: [Close (Some 0%Z)]))
    = [Rejected (js "Codex CLI timed out after 60000ms.")].
Proof.
  split; [by vm_compute|].
  refine (proj1 (proj2 (timeout_rejects_and_kills 60000 [StdoutData (js "so far")]
                          [Close (Some 0%Z)] _)) _); by vm_compute.
Defined.
